(** * Feature-column utilities: a shallow embedding of
    [tensorflow/contrib/layers/python/layers/feature_column_ops.py]

    The Python module builds graph tensors out of feature columns.  The
    definitions below follow the source function by function.  Python
    exceptions are values of [Exn]; the dictionary [columns_to_tensors],
    which the source mutates in place and shares between the caller, the
    [_Transformer] and the columns, lives in the [World] that every
    operation threads through. *)

From stdpp Require Import gmap strings list sorting.

Local Open Scope string_scope.
Local Open Scope list_scope.
Local Open Scope nat_scope.

(** ** Tensors, as the inference sees them *)

(** Modelled from the spec: the element types of tensors, missing from
    the sources (the framework's [DType]); [is_integer] and [is_floating]
    single out the numeric ones. *)
Inductive DType :=
| DT_FLOAT | DT_DOUBLE
| DT_INT8 | DT_INT16 | DT_INT32 | DT_INT64 | DT_UINT8
| DT_STRING | DT_BOOL | DT_COMPLEX64.

Definition is_integer (dtype : DType) : bool :=
  match dtype with
  | DT_INT8 | DT_INT16 | DT_INT32 | DT_INT64 | DT_UINT8 => true
  | _ => false
  end.

Definition is_floating (dtype : DType) : bool :=
  match dtype with
  | DT_FLOAT | DT_DOUBLE => true
  | _ => false
  end.

(** What the inference looks at in its argument: whether it is an
    [ops.SparseTensor], and for a dense tensor its element type and its
    static shape ([tensor.get_shape()]), batch axis first.  A static
    shape may be of unknown rank ([None] here), and the size of any of
    its axes may be unknown (a [None] in [as_list()]). *)
Inductive TensorLike :=
| DenseTensor (dtype : DType) (shape : option (list (option nat)))
| SparseTensor (dtype : DType).

Global Instance DType_eq_dec : EqDecision DType.
Proof. solve_decision. Defined.

Global Instance TensorLike_eq_dec : EqDecision TensorLike.
Proof. solve_decision. Defined.

(** ** Exceptions and results *)

(** [ValueError msg] is a [ValueError] built from one string.
    [ValueErrorArgs text name tensor] is [ValueError(text, name, tensor)],
    as the inference raises it: the exception keeps the three arguments,
    the text unformatted. *)
Inductive Exn :=
| ValueError (msg : string)
| ValueErrorArgs (text name : string) (tensor : TensorLike)
| AttributeError (msg : string)
| KeyError (msg : string)
| TypeError (msg : string).

Inductive result (A : Type) :=
| Ok (a : A)
| Raise (e : Exn).
Arguments Ok {A} a.
Arguments Raise {A} e.

Global Instance Exn_eq_dec : EqDecision Exn.
Proof. solve_decision. Defined.

Global Instance result_ret : MRet result := @Ok.
Global Instance result_bind : MBind result := λ A B f r,
  match r with
  | Ok a => f a
  | Raise e => Raise e
  end.

(** [ops.GraphKeys] *)
Module GraphKeys.
Definition VARIABLES : string := "variables".
Definition TRAINABLE_VARIABLES : string := "trainable_variables".
End GraphKeys.

(** Addition and zero of the element type of dense values (floating
    point in the framework: no law is assumed of them). *)
Class ElementOps (Elt : Type) := {
  eadd : Elt → Elt → Elt;
  ezero : Elt
}.

(** [list(set(names))] on a list of strings: the names, each once, in
    the order in which the set iterates -- an order that depends on the
    hashes of the strings and on the order of insertion, and that the
    language leaves open.  The order is a parameter; that the list holds
    the same names, none of them twice, is what is known of it. *)
Class SetIteration := {
  list_of_set : list string → list string;
  list_of_set_NoDup names : NoDup (list_of_set names);
  list_of_set_elem names x : x ∈ list_of_set names ↔ x ∈ names
}.

Section FeatureColumnOps.

(** Columns are hashable Python objects used as dictionary keys:
    [Column] comes with decidable equality and is countable.  [Tensor]
    is whatever the mapping stores (dense or sparse graph tensors);
    [Elt] is the element type of dense values. *)
Context {Column : Type} `{Countable Column} {Tensor Elt : Type}.

Context `{!ElementOps Elt} `{!SetIteration}.

(** Keys of [columns_to_tensors]: a string names a base feature, a
    column names an already transformed one. *)
Inductive Key :=
| KName (s : string)
| KCol (c : Column).

Global Instance Key_eq_dec : EqDecision Key.
Proof. solve_decision. Defined.

Global Instance Key_countable : Countable Key.
Proof.
  refine (inj_countable'
    (λ k, match k with KName s => inl s | KCol c => inr c end)
    (λ x, match x with inl s => KName s | inr c => KCol c end) _).
  by intros [].
Defined.

(** A dense rank-2 value, batch-major: one row per example. *)
Local Abbreviation Matrix := (list (list Elt)).

(** A graph variable: its name, its device and its initial value
    (flattened). *)
Record Var := mkVar {
  var_name : string;
  var_device : string;
  var_value : list Elt
}.

(** What [to_weighted_sum] returns next to the predictions: one
    variable, or a list of them ([isinstance(variable, list)]). *)
Inductive Weights :=
| OneVar (v : Var)
| VarList (vs : list Var).

(** The mutable state the module works on: the shared dictionary and
    the graph's variable collections. *)
Record World := mkWorld {
  columns_to_tensors : gmap Key Tensor;
  collections : gmap string (list Var);
  device : string
}.

(** What the source itself does to the outside: the [logging.info]
    calls and the method calls it makes on columns. *)
Inductive Event :=
| LogTransforming (feature_column : Key)
| LogCreatedVariable (v : Var)
| CallInsertTransformedFeature (c : Column)
| CallToDnnInputLayer (c : Column)
| CallToWeightedSum (c : Column).

(** ** The monad: state, a trace of events, and exceptions *)

Definition M (A : Type) : Type := World → World * list Event * result A.

Definition ret {A} (a : A) : M A := λ w, (w, [], Ok a).

Definition bind {A B} (m : M A) (f : A → M B) : M B := λ w,
  match m w with
  | (w1, t1, Ok a) => let '(w2, t2, r) := f a w1 in (w2, t1 ++ t2, r)
  | (w1, t1, Raise e) => (w1, t1, Raise e)
  end.

Definition raise {A} (e : Exn) : M A := λ w, (w, [], Raise e).
Definition emit (ev : Event) : M unit := λ w, (w, [ev], Ok ()).
Definition gets {A} (f : World → A) : M A := λ w, (w, [], Ok (f w)).

(** Code outside this module (a column method, a framework call)
    changes the world and returns or raises; it emits none of the
    events above. *)
Definition Ext (A : Type) : Type := World → World * result A.
Definition ext {A} (m : Ext A) : M A := λ w, let '(w', r) := m w in (w', [], r).
Definition pure_result {A} (r : result A) : M A := λ w, (w, [], r).

Global Instance M_ret : MRet M := @ret.
Global Instance M_bind : MBind M := λ A B f m, bind m f.

(** ** The feature-column interface

    Modelled from the spec: the feature columns ([feature_column.py],
    missing from the sources), "a polymorphic descriptor" that "exposes:
    a unique [key], a [name], an operation to insert its transformed
    representation into a shared mapping, and operations to render itself
    as a dense input-layer slice or as a weighted-sum contribution".
    These are the members the module calls; what they do is up to the
    column. *)
Class FeatureColumn := {
  key : Column → string;
  name : Column → string;
  insert_transformed_feature : Column → Ext unit;
  to_dnn_input_layer :
    Column → Tensor → option (list string) → bool → Ext Matrix;
  to_weighted_sum :
    Column → Tensor → nat → option (list string) → bool →
    Ext (Matrix * Weights)
}.

Context `{!FeatureColumn}.

(** ** [check_feature_columns] *)

Fixpoint check_loop (seen_keys : gset string) (feature_columns : list Column)
  : result unit :=
  match feature_columns with
  | [] => Ok ()
  | f :: rest =>
      let key := key f in
      if decide (key ∈ seen_keys)
      then Raise (ValueError ("Duplicate feature column key found: " +:+ key))
      else check_loop ({[key]} ∪ seen_keys) rest
  end.

Definition check_feature_columns (feature_columns : list Column) : M unit :=
  pure_result (check_loop ∅ feature_columns).

(** ** [_Transformer]

    [self._columns_to_tensors] is the caller's dictionary itself, so
    the transformer has no state of its own. *)

(** [feature_column.insert_transformed_feature(self._columns_to_tensors)]:
    a method call on a column; a plain string has no such attribute. *)
Definition call_insert_transformed_feature (feature_column : Key) : M unit :=
  match feature_column with
  | KCol c =>
      emit (CallInsertTransformedFeature c) ;;
      ext (insert_transformed_feature c)
  | KName _ =>
      raise (AttributeError
        "'str' object has no attribute 'insert_transformed_feature'")
  end.

Definition key_name (feature_column : Key) : string :=
  match feature_column with
  | KCol c => name c
  | KName s => s
  end.

(** [transform]: the argument is used as a dictionary key and, on a
    miss, as an object with the method [insert_transformed_feature]; the
    callers in this module pass columns. *)
Definition transform (feature_column : Key) : M Tensor :=
  emit (LogTransforming feature_column) ;;
  d ← gets columns_to_tensors;
  match d !! feature_column with
  | Some t => ret t
  | None =>
      call_insert_transformed_feature feature_column ;;
      d' ← gets columns_to_tensors;
      match d' !! feature_column with
      | None =>
          raise (ValueError
            ("Column " +:+ key_name feature_column +:+ " is not supported."))
      | Some t => ret t
      end
  end.

(** ** Framework operations

    The graph operations the builders call are defined elsewhere in the
    framework; they are modelled on dense values. *)

(** Modelled from the spec: [array_ops.concat(1, values)], missing from
    the sources: "concatenate all per-column slices along the feature
    axis to produce one tensor per batch element".  The slices must
    agree on the batch size, and there must be at least one. *)
Fixpoint concat_feature_axis (values : list Matrix) : result Matrix :=
  match values with
  | [] => Raise (ValueError "concat: no values")
  | m :: rest =>
      match rest with
      | [] => Ok m
      | _ =>
          r ← concat_feature_axis rest;
          if decide (length m = length r)
          then Ok (zip_with app m r)
          else Raise (ValueError "concat: batch sizes differ")
      end
  end.

(** Modelled from the spec: [math_ops.add_n(inputs)], missing from the
    sources: "accumulate contributions by elementwise addition".  The
    inputs must have one shape, and there must be at least one. *)
Definition add_elementwise (a b : Matrix) : result Matrix :=
  if decide (length <$> a = length <$> b)
  then Ok (zip_with (zip_with eadd) a b)
  else Raise (ValueError "add_n: shapes differ").

Fixpoint add_n_from (acc : Matrix) (inputs : list Matrix) : result Matrix :=
  match inputs with
  | [] => Ok acc
  | m :: rest => acc' ← add_elementwise acc m; add_n_from acc' rest
  end.

Definition add_n (inputs : list Matrix) : result Matrix :=
  match inputs with
  | [] => Raise (ValueError "add_n: no inputs")
  | m :: rest => add_n_from m rest
  end.

(** Modelled from the spec: [nn_ops.bias_add(value, bias)], missing from
    the sources: "add a learned bias vector of the output width" to
    every row. *)
Definition bias_add (value : Matrix) (bias : Var) : result Matrix :=
  if decide (Forall (λ row, length row = length (var_value bias)) value)
  then Ok ((λ row, zip_with eadd row (var_value bias)) <$> value)
  else Raise (ValueError "bias_add: widths differ").

(** Modelled from the spec: [array_ops.zeros([n])]. *)
Definition zeros (n : nat) : list Elt := replicate n ezero.

(** Modelled from the spec: [fc._add_variable_collection], missing from
    the sources; [input_from_feature_columns] does the same inline:
    a non-empty list of collections gets [GraphKeys.VARIABLES] added,
    duplicates removed; [None] and the empty list are passed on. *)
Definition _add_variable_collection (weight_collections : option (list string))
  : option (list string) :=
  match weight_collections with
  | Some (c :: cs) => Some (list_of_set ((c :: cs) ++ [GraphKeys.VARIABLES]))
  | other => other
  end.

Definition add_to_collection (cname : string) (v : Var) (w : World) : World :=
  mkWorld (columns_to_tensors w)
          (<[cname := default [] (collections w !! cname) ++ [v]]> (collections w))
          (device w).

(** Modelled from the spec: [variables.Variable(initial_value,
    trainable, collections, name)], missing from the sources; the
    builders' docstring describes it: "If [True] also add variables to
    the graph collection [GraphKeys.TRAINABLE_VARIABLES] (see
    tf.Variable)".  Without [collections] the variable goes to
    [GraphKeys.VARIABLES]. *)
Definition new_Variable (initial_value : list Elt) (trainable : bool)
    (collections : option (list string)) (name : string) : Ext Var := λ w,
  let v := mkVar name (device w) initial_value in
  let cs := default [GraphKeys.VARIABLES] collections in
  let cs := if trainable then cs ++ [GraphKeys.TRAINABLE_VARIABLES] else cs in
  (foldr (λ c, add_to_collection c v) w (elements (list_to_set cs : gset string)),
   Ok v).

(** [trainable] is a keyword argument of the constructor; a call that
    does not pass it gets the default. *)
Definition Variable_trainable_default : bool := true.

(** ** [_log_variable] *)
Definition _log_variable (variable : Weights) : M unit :=
  match variable with
  | VarList vs => foldr (λ var rest, emit (LogCreatedVariable var);; rest) (ret ()) vs
  | OneVar v => emit (LogCreatedVariable v)
  end.

(** ** [sorted(set(feature_columns), key=lambda x: x.key)]

    [set] removes equal columns and iterates in an order of its own;
    [sorted] is stable and compares the keys as strings. *)
Fixpoint insert_by_key (x : Column) (l : list Column) : list Column :=
  match l with
  | [] => [x]
  | y :: l' =>
      if decide (String.le (key x) (key y)) then x :: y :: l'
      else y :: insert_by_key x l'
  end.

Definition sorted_by_key (l : list Column) : list Column :=
  foldr insert_by_key [] l.

Definition set_of (feature_columns : list Column) : list Column :=
  elements (list_to_set feature_columns : gset Column).

(** ** [input_from_feature_columns]

    The argument [columns_to_tensors] is the dictionary of the world.
    [name] only names the variable scope the body runs in.  A
    [weight_collections] that is [None] or empty is falsy and passed on
    as it is. *)
Fixpoint input_loop (columns : list Column)
    (weight_collections : option (list string)) (trainable : bool)
    (output_tensors : list Matrix) : M (list Matrix) :=
  match columns with
  | [] => ret output_tensors
  | column :: rest =>
      transformed_tensor ← transform (KCol column);
      emit (CallToDnnInputLayer column);;
      slice ← ext (to_dnn_input_layer column transformed_tensor
                     weight_collections trainable);
      input_loop rest weight_collections trainable (output_tensors ++ [slice])
  end.

Definition input_from_feature_columns (feature_columns : list Column)
    (weight_collections : option (list string)) (name : option string)
    (trainable : bool) : M Matrix :=
  check_feature_columns feature_columns;;
  let weight_collections :=
    match weight_collections with
    | Some (c :: cs) => Some (list_of_set ((c :: cs) ++ [GraphKeys.VARIABLES]))
    | other => other
    end in
  output_tensors ←
    input_loop (sorted_by_key (set_of feature_columns))
               weight_collections trainable [];
  pure_result (concat_feature_axis output_tensors).

(** ** [weighted_sum_from_feature_columns] *)
Fixpoint weighted_sum_loop (columns : list Column) (num_outputs : nat)
    (weight_collections : option (list string)) (trainable : bool)
    (output_tensors : list Matrix) (column_to_variable : gmap Column Weights)
  : M (list Matrix * gmap Column Weights) :=
  match columns with
  | [] => ret (output_tensors, column_to_variable)
  | column :: rest =>
      transformed_tensor ← transform (KCol column);
      emit (CallToWeightedSum column);;
      pv ← ext (to_weighted_sum column transformed_tensor num_outputs
                  weight_collections trainable);
      let output_tensors := output_tensors ++ [pv.1] in
      let column_to_variable := <[column := pv.2]> column_to_variable in
      _log_variable pv.2;;
      weighted_sum_loop rest num_outputs weight_collections trainable
                        output_tensors column_to_variable
  end.

Definition weighted_sum_from_feature_columns (feature_columns : list Column)
    (num_outputs : nat) (weight_collections : option (list string))
    (name : option string) (trainable : bool)
  : M (Matrix * gmap Column Weights * Var) :=
  check_feature_columns feature_columns;;
  acc ← weighted_sum_loop (sorted_by_key (set_of feature_columns))
           num_outputs weight_collections trainable [] ∅;
  let '(output_tensors, column_to_variable) := acc in
  predictions_no_bias ← pure_result (add_n output_tensors);
  bias ← ext (new_Variable (zeros num_outputs) Variable_trainable_default
                (_add_variable_collection weight_collections) "bias_weight");
  _log_variable (OneVar bias);;
  predictions ← pure_result (bias_add predictions_no_bias bias);
  ret (predictions, column_to_variable, bias).

(** * What the properties are stated with *)

(** ** A sequence of [transform] calls on one transformer

    The caller may catch an exception and go on: every call runs on the
    world the previous one left, whether it returned or raised. *)
Fixpoint transform_calls (feature_columns : list Key) (w : World)
  : World * list Event * list (result Tensor) :=
  match feature_columns with
  | [] => (w, [], [])
  | k :: rest =>
      let '(w1, t1, r) := transform k w in
      let '(w2, t2, rs) := transform_calls rest w1 in
      (w2, t1 ++ t2, r :: rs)
  end.

(** Modelled from the spec: what [insert_transformed_feature] (in
    [feature_column.py], missing from the sources) may do to the mapping.
    Called for a column that has no entry yet, it is "expected to write
    exactly one new entry (for itself, and possibly for dependency columns
    it transforms internally)": "entries are only ever added, never
    removed", also when the call raises half-way. *)
Definition insert_adds_only : Prop :=
  ∀ c w, columns_to_tensors w !! KCol c = None →
    columns_to_tensors w ⊆ columns_to_tensors (insert_transformed_feature c w).1.

(** The invocations of [c.insert_transformed_feature] that [transform]
    makes (line 359 of the source), as a trace records them.  What the
    method of a column calls on other columns while it runs is code of
    [feature_column.py], not of this module: it is part of what that
    method does to the world, and leaves no event. *)
Definition is_insert_call (c : Column) (ev : Event) : bool :=
  match ev with
  | CallInsertTransformedFeature c' => bool_decide (c' = c)
  | _ => false
  end.

Fixpoint insert_calls (c : Column) (tr : list Event) : nat :=
  match tr with
  | [] => 0
  | ev :: tr' => (if is_insert_call c ev then 1 else 0) + insert_calls c tr'
  end.

(** ** The order of the keys *)

Definition key_le (a b : Column) : Prop := String.le (key a) (key b).

(** Distinct keys in a list sorted by key: strictly ascending. *)
Definition key_lt (a b : Column) : Prop := strict String.le (key a) (key b).

(** The columns whose [to_dnn_input_layer] a trace calls, in order. *)
Definition dnn_calls (tr : list Event) : list Column :=
  omap (λ ev, match ev with CallToDnnInputLayer c => Some c | _ => None end) tr.

(** The columns whose [to_weighted_sum] a trace calls, in order. *)
Definition weighted_sum_calls (tr : list Event) : list Column :=
  omap (λ ev, match ev with CallToWeightedSum c => Some c | _ => None end) tr.

(** ** The dense model: shapes of the combined tensors *)

Definition width_is (width : nat) (m : Matrix) : Prop :=
  Forall (λ row, length row = width) m.

Definition row_at (i : nat) (m : Matrix) : list Elt := default [] (m !! i).

(** ** [input_from_feature_columns], step by step

    [input_steps weight_collections trainable columns w w' slices]: from
    world [w], transforming and rendering the [columns] one after the
    other yields the [slices] and leaves world [w']. *)
Inductive input_steps (weight_collections : option (list string))
    (trainable : bool) : list Column → World → World → list Matrix → Prop :=
| input_steps_nil w : input_steps weight_collections trainable [] w w []
| input_steps_cons c cs w w1 t1 tensor w2 slice w3 slices :
    transform (KCol c) w = (w1, t1, Ok tensor) →
    to_dnn_input_layer c tensor weight_collections trainable w1 = (w2, Ok slice) →
    input_steps weight_collections trainable cs w2 w3 slices →
    input_steps weight_collections trainable (c :: cs) w w3 (slice :: slices).

(** ** The dense model: entries of sums *)

Definition entry (m : Matrix) (i j : nat) : option Elt := m !! i ≫= (.!! j).

Definition add_opt (a b : option Elt) : option Elt :=
  x ← a; y ← b; Some (eadd x y).

(** The sum of the [i],[j] entries of the inputs, in the order of the
    inputs. *)
Definition sum_entries (i j : nat) (inputs : list Matrix) : option Elt :=
  match inputs with
  | [] => None
  | m :: rest => foldl (λ acc m', add_opt acc (entry m' i j)) (entry m i j) rest
  end.

(** ** [weighted_sum_from_feature_columns], step by step

    [weighted_sum_steps num_outputs weight_collections trainable columns
    w w' contributions]: from world [w], transforming the [columns] and
    asking each for its weighted sum, one after the other, yields the
    [contributions] (predictions and variables) and leaves world [w']. *)
Inductive weighted_sum_steps (num_outputs : nat)
    (weight_collections : option (list string)) (trainable : bool)
  : list Column → World → World → list (list (list Elt) * Weights) → Prop :=
| weighted_sum_steps_nil w :
    weighted_sum_steps num_outputs weight_collections trainable [] w w []
| weighted_sum_steps_cons c cs w w1 t1 tensor w2 pv w3 pvs :
    transform (KCol c) w = (w1, t1, Ok tensor) →
    to_weighted_sum c tensor num_outputs weight_collections trainable w1
      = (w2, Ok pv) →
    weighted_sum_steps num_outputs weight_collections trainable cs w2 w3 pvs →
    weighted_sum_steps num_outputs weight_collections trainable
      (c :: cs) w w3 (pv :: pvs).

(** ** Which collections the bias variable ends up in *)

Definition in_collection (cname : string) (v : Var) (w : World) : Prop :=
  v ∈ default [] (collections w !! cname).

(** ** [parse_feature_columns_from_examples]

    Modelled from the spec: the example parser the function wraps
    ([parsing_ops.parse_example] and [fc.create_feature_spec_for_parsing],
    missing from the sources): "derive the expected per-field parsing
    schema from the feature column set", then "parse a batch of
    serialized records against that schema"; the parser returns a new
    dictionary of raw tensors.  What the two do is a parameter. *)
Context {Serialized FeatureSpec : Type}.

Class ExampleParser := {
  create_feature_spec_for_parsing : list Column → result FeatureSpec;
  parse_example :
    Serialized → FeatureSpec → option string → option Serialized →
    Ext (gmap Key Tensor)
}.

Context `{!ExampleParser}.

(** [transformer = _Transformer(columns_to_tensors)]: from here on the
    dictionary the parser returned is the one the transformer and the
    columns share. *)
Definition new_Transformer (d : gmap Key Tensor) : M unit := λ w,
  (mkWorld d (collections w) (device w), [], Ok ()).

(** [for column in ...: transformer.transform(column)] *)
Fixpoint transform_loop (columns : list Column) : M unit :=
  match columns with
  | [] => ret ()
  | column :: rest => transform (KCol column);; transform_loop rest
  end.

(** The function takes "an iterable" of columns, where the builders take
    "a set", and goes through it three times.  A collection (a list, a
    set, a tuple) gives all its items every time.  A one-shot iterator (a
    generator, say) gives each item once, to whoever asks first, and
    nothing after that. *)
Inductive Iterable :=
| Collection (items : list Column)
| Iterator (remaining : list Column).

(** Going through an iterable to its end: the items met, and the
    iterable as it is afterwards. *)
Definition iterate (iterable : Iterable) : list Column * Iterable :=
  match iterable with
  | Collection items => (items, Collection items)
  | Iterator remaining => (remaining, Iterator [])
  end.

(** [check_feature_columns] goes through [feature_columns] first (when
    it raises, whatever it has left of an iterator is the caller's), then
    [create_feature_spec_for_parsing], then [set]. *)
Definition parse_feature_columns_from_examples (serialized : Serialized)
    (feature_columns : Iterable) (name : option string)
    (example_names : option Serialized) : M (gmap Key Tensor) :=
  let '(checked, feature_columns) := iterate feature_columns in
  check_feature_columns checked;;
  let '(described, feature_columns) := iterate feature_columns in
  features ← pure_result (create_feature_spec_for_parsing described);
  parsed ← ext (parse_example serialized features name example_names);
  new_Transformer parsed;;
  let '(requested, _) := iterate feature_columns in
  transform_loop (sorted_by_key (set_of requested));;
  gets columns_to_tensors.

(** ** More of what the properties are stated with *)

(** What the first traversal of an iterable meets, and what every later
    one does. *)
Definition first_pass (iterable : Iterable) : list Column := (iterate iterable).1.

Definition later_pass (iterable : Iterable) : list Column :=
  (iterate (iterate iterable).2).1.

(** The arguments of the [transform] calls a trace logs, in order. *)
Definition transform_log (tr : list Event) : list Key :=
  omap (λ ev, match ev with LogTransforming k => Some k | _ => None end) tr.

(** The variables a trace logs as created, in order. *)
Definition logged_variables (tr : list Event) : list Var :=
  omap (λ ev, match ev with LogCreatedVariable v => Some v | _ => None end) tr.

(** The variables [_log_variable] goes through. *)
Definition variables_of (variable : Weights) : list Var :=
  match variable with
  | OneVar v => [v]
  | VarList vs => vs
  end.

End FeatureColumnOps.

(** * Inferring real-valued columns from tensors *)

(** Modelled from the spec: the descriptor [fc.real_valued_column(name,
    dimension=..., dtype=...)] builds, missing from the sources: "a dense
    column" with its dimension and element type. *)
Record RealValuedColumn := real_valued_column {
  column_name : string;
  dimension : nat;
  dtype : DType
}.

(** [tensor.get_shape().as_list()]: the sizes of the axes, [None] for an
    unknown one; a shape of unknown rank has no list. *)
Definition as_list (shape : option (list (option nat)))
  : result (list (option nat)) :=
  match shape with
  | Some dims => Ok dims
  | None => Raise (ValueError "as_list() is not defined on an unknown TensorShape.")
  end.

(** [dimension *= shape[i]]: an [int] times [None] is a [TypeError]. *)
Definition imul (dimension : nat) (size : option nat) : result nat :=
  match size with
  | Some n => Ok (dimension * n)
  | None =>
      Raise (TypeError "unsupported operand type(s) for *=: 'int' and 'NoneType'")
  end.

(** [for i in range(1, len(shape)): dimension *= shape[i]] *)
Fixpoint dimension_from (shape : list (option nat)) (indices : list nat)
    (dimension : nat) : result nat :=
  match indices with
  | [] => Ok dimension
  | i :: rest =>
      dimension ← imul dimension (default None (shape !! i));
      dimension_from shape rest dimension
  end.

Definition dimension_loop (shape : list (option nat)) : result nat :=
  dimension_from shape (seq 1 (length shape - 1)) 1.

Definition sparse_not_supported : string :=
  "SparseTensor is not supported for auto detection. Please define "
  +:+ "corresponding FeatureColumn for tensor {} {}.".

Definition type_not_supported : string :=
  "Non integer or non floating types are not supported for auto detection"
  +:+ ". Please define corresponding FeatureColumn for tensor {} {}.".

Definition _infer_real_valued_column_for_tensor (name : string)
    (tensor : TensorLike) : result RealValuedColumn :=
  match tensor with
  | SparseTensor _ =>
      Raise (ValueErrorArgs sparse_not_supported name tensor)
  | DenseTensor dtype shape =>
      if negb (is_integer dtype || is_floating dtype)
      then Raise (ValueErrorArgs type_not_supported name tensor)
      else
        shape ← as_list shape;
        dimension ← dimension_loop shape;
        Ok (real_valued_column name dimension dtype)
  end.

(** [features] is one tensor or a [dict] of named tensors, whose items
    come in the dictionary's order. *)
Inductive Features :=
| OneTensor (tensor : TensorLike)
| TensorDict (items : list (string * TensorLike)).

Fixpoint infer_loop (items : list (string * TensorLike))
    (feature_columns : list RealValuedColumn) : result (list RealValuedColumn) :=
  match items with
  | [] => Ok feature_columns
  | (key, value) :: rest =>
      column ← _infer_real_valued_column_for_tensor key value;
      infer_loop rest (feature_columns ++ [column])
  end.

Definition infer_real_valued_columns (features : Features)
  : result (list RealValuedColumn) :=
  match features with
  | OneTensor tensor =>
      column ← _infer_real_valued_column_for_tensor "" tensor;
      Ok [column]
  | TensorDict items => infer_loop items []
  end.

(** ** What the properties of the inference are stated with *)

(** The product of the dimensions of a shape. *)
Definition product_of (dims : list nat) : nat := foldr Nat.mul 1 dims.

(** A dense tensor of integer or floating element type. *)
Definition dense_numeric (tensor : TensorLike) : bool :=
  match tensor with
  | DenseTensor dtype _ => is_integer dtype || is_floating dtype
  | SparseTensor _ => false
  end.

(** A static shape of known rank whose axes after the first have the
    given sizes; the size of the first (batch) axis may be unknown. *)
Definition shape_of (batch : option nat) (sizes : list nat)
  : option (list (option nat)) :=
  Some (batch :: (Some <$> sizes)).

(** The sizes of the axes after the first, when the rank and all of
    them are known. *)
Definition sizes_after_batch (tensor : TensorLike) : option (list nat) :=
  match tensor with
  | DenseTensor _ (Some dims) => mapM id (drop 1 dims)
  | _ => None
  end.

(** A dense numeric tensor of known rank with known sizes after the
    batch axis. *)
Definition inferable (tensor : TensorLike) : bool :=
  dense_numeric tensor && bool_decide (is_Some (sizes_after_batch tensor)).

(** The column the spec describes for a named dense tensor. *)
Definition column_of (name : string) (tensor : TensorLike) : RealValuedColumn :=
  match tensor with
  | DenseTensor dtype _ =>
      real_valued_column name
        (product_of (default [] (sizes_after_batch tensor))) dtype
  | SparseTensor dtype => real_valued_column name 1 dtype
  end.

(** What a caller sees of an outcome when it only looks at the returned
    value. *)
Definition returned {A} (r : result A) : option A :=
  match r with
  | Ok a => Some a
  | Raise _ => None
  end.

(** * A concrete set of columns

    Modelled from the spec: columns of the variants of the data model
    ([feature_column.py] is missing from the sources), those of the
    docstrings' example: a real-valued [age], its bucketized form, a
    hashed [query_word] and their cross; a derived column transforms the
    columns it depends on when they have no entry yet, then writes its
    own entry.  One more column, [image], stores nothing when asked to
    transform itself.  Tensors are dense integer matrices. *)
Module Example.

Inductive Column := age | age_bucket | query_word | query_age | image.

Global Instance Column_eq_dec : EqDecision Column.
Proof. solve_decision. Defined.

Global Instance Column_countable : Countable Column.
Proof.
  refine (inj_countable'
    (λ c, match c with
          | age => 0 | age_bucket => 1 | query_word => 2 | query_age => 3
          | image => 4
          end)
    (λ n, match n with
          | 0 => age | 1 => age_bucket | 2 => query_word | 3 => query_age
          | _ => image
          end) _).
  by intros [].
Defined.

Abbreviation Tensor := (list (list Z)).

Global Instance Z_ops : ElementOps Z := {| eadd := Z.add; ezero := 0%Z |}.

(** An iteration order for sets of names: ascending in the order of the
    set's representation. *)
Global Instance set_iteration : SetIteration.
Proof.
  refine {| list_of_set names := elements (list_to_set names : gset string) |}.
  - intros names. apply NoDup_elements.
  - intros names x. by rewrite elem_of_elements, elem_of_list_to_set.
Defined.

Abbreviation Key := (Key (Column:=Column)).
Abbreviation World := (World (Column:=Column) (Tensor:=Tensor) (Elt:=Z)).
Abbreviation Ext := (Ext (Column:=Column) (Tensor:=Tensor) (Elt:=Z)).

Definition name_of (c : Column) : string :=
  match c with
  | age => "age"
  | age_bucket => "age_BUCKETIZED"
  | query_word => "query_word"
  | query_age => "age_BUCKETIZED_X_query_word"
  | image => "image"
  end.

(** [columns_to_tensors[k] = t] *)
Definition set_item (k : Key) (t : Tensor) (w : World) : World :=
  mkWorld (<[k := t]> (columns_to_tensors w)) (collections w) (device w).

Definition describe (k : Key) : string :=
  match k with
  | KName s => s
  | KCol c => name_of c
  end.

(** [columns_to_tensors[c] = f(columns_to_tensors[source])] *)
Definition insert_from (c : Column) (source : Key) (f : Tensor → Tensor) : Ext unit :=
  λ w, match columns_to_tensors w !! source with
       | Some t => (set_item (KCol c) (f t) w, Ok ())
       | None => (w, Raise (KeyError (describe source)))
       end.

(** [if dep not in columns_to_tensors: dep.insert_transformed_feature(...)] *)
Definition ensure (dep : Column) (insert_dep : Ext unit) : Ext unit :=
  λ w, match columns_to_tensors w !! KCol dep with
       | Some _ => (w, Ok ())
       | None => insert_dep w
       end.

Definition and_then (m1 m2 : Ext unit) : Ext unit :=
  λ w, match m1 w with
       | (w1, Ok _) => m2 w1
       | (w1, Raise e) => (w1, Raise e)
       end.

Definition boundaries : list Z := [18; 21; 30; 50; 70]%Z.

Definition bucketize (t : Tensor) : Tensor :=
  fmap (M:=list) (fmap (M:=list)
    (λ x, Z.of_nat (length (filter (λ b, (b ≤ x)%Z) boundaries)))) t.

Definition hash_bucket (size : Z) (t : Tensor) : Tensor :=
  fmap (M:=list) (fmap (M:=list) (λ x, (x mod size)%Z)) t.

Definition cross (size : Z) (a b : Tensor) : Tensor :=
  zip_with (zip_with (λ x y, ((x * 31 + y) mod size)%Z)) a b.

Definition insert_age : Ext unit := insert_from age (KName "age") id.

Definition insert_age_bucket : Ext unit :=
  and_then (ensure age insert_age) (insert_from age_bucket (KCol age) bucketize).

Definition insert_query_word : Ext unit :=
  insert_from query_word (KName "query_word") (hash_bucket 1000).

Definition insert_query_age : Ext unit :=
  and_then (ensure query_word insert_query_word)
    (and_then (ensure age_bucket insert_age_bucket)
       (λ w, match columns_to_tensors w !! KCol query_word with
             | Some t => insert_from query_age (KCol age_bucket) (cross 1000 t) w
             | None => (w, Raise (KeyError "query_word"))
             end)).

Definition one_hot (n : nat) (i : Z) : list Z :=
  (λ j, if decide (Z.of_nat j = i) then 1%Z else 0%Z) <$> seq 0 n.

Definition not_for_dnn : Exn :=
  ValueError "column cannot be consumed by a neural network".

Definition not_for_linear : Exn :=
  ValueError "column cannot be used for linear predictions".

(** A linear column: one weight variable of ones, created with the
    caller's collections and [trainable] flag; the predictions are the
    input times the weights. *)
Definition linear (c : Column) (t : Tensor) (num_outputs : nat)
    (weight_collections : option (list string)) (trainable : bool)
  : Ext (list (list Z) * Weights) :=
  λ w, match new_Variable (replicate num_outputs 1%Z) trainable
               (_add_variable_collection weight_collections)
               (name_of c +:+ "_weights") w with
       | (w', Ok v) =>
           (w', Ok ((λ row, replicate num_outputs (foldr Z.add 0%Z row)) <$> t,
                    OneVar v))
       | (w', Raise e) => (w', Raise e)
       end.

Global Instance columns : FeatureColumn (Column:=Column) (Tensor:=Tensor) (Elt:=Z) := {|
  key := name_of;
  name := name_of;
  insert_transformed_feature c :=
    match c with
    | age => insert_age
    | age_bucket => insert_age_bucket
    | query_word => insert_query_word
    | query_age => insert_query_age
    | image => λ w, (w, Ok ())
    end;
  to_dnn_input_layer c t weight_collections trainable :=
    match c with
    | age => λ w, (w, Ok t)
    | age_bucket => λ w, (w, Ok ((λ row, row ≫= one_hot 6) <$> t))
    | _ => λ w, (w, Raise not_for_dnn)
    end;
  to_weighted_sum c t num_outputs weight_collections trainable :=
    match c with
    | image => λ w, (w, Raise not_for_linear)
    | _ => linear c t num_outputs weight_collections trainable
    end
|}.

(** A world without any parsed input. *)
Definition w_empty : World := mkWorld ∅ ∅ "".

(** The parsed input: two examples with their raw features. *)
Definition w0 : World :=
  mkWorld (<[KName "age" := [[25]; [40]]%Z]>
             (<[KName "query_word" := [[1007]; [2009]]%Z]> ∅))
          ∅ "".

(** Modelled from the spec: a parser for these columns
    ([parsing_ops.parse_example] and [fc.create_feature_spec_for_parsing]
    are missing from the sources).  The schema of a set of columns is the
    list of the raw features they read; a batch of records gives the raw
    tensor of each feature; parsing fails on a feature the records do not
    have. *)
Definition raw_features (c : Column) : list string :=
  match c with
  | age | age_bucket => ["age"]
  | query_word => ["query_word"]
  | query_age => ["query_word"; "age"]
  | image => ["image"]
  end.

Fixpoint parse_features (serialized : gmap string Tensor)
    (features : list string) : result (gmap Key Tensor) :=
  match features with
  | [] => Ok ∅
  | n :: rest =>
      match serialized !! n with
      | None => Raise (KeyError n)
      | Some t => d ← parse_features serialized rest; Ok (<[KName n := t]> d)
      end
  end.

Global Instance parser :
  ExampleParser (Column:=Column) (Tensor:=Tensor) (Elt:=Z)
    (Serialized:=gmap string Tensor) (FeatureSpec:=list string) := {|
  create_feature_spec_for_parsing cols := Ok (cols ≫= raw_features);
  parse_example serialized features _ _ :=
    λ w, (w, parse_features serialized features)
|}.

(** A batch of two records. *)
Definition records : gmap string Tensor :=
  <["age" := [[25]; [40]]%Z]> (<["query_word" := [[1007]; [2009]]%Z]> ∅).

End Example.

(** * Properties *)

Section Properties.

Context {Column : Type} `{Countable Column} {Tensor Elt : Type}.
Context `{!ElementOps Elt} `{!SetIteration}.
Context `{!FeatureColumn (Column:=Column) (Tensor:=Tensor) (Elt:=Elt)}.

(** The types and the helper functions of the embedding, at the
    parameters of this section. *)
Local Abbreviation Matrix := (list (list Elt)).
Local Abbreviation Key := (Key (Column:=Column)).
Local Abbreviation Var := (Var (Elt:=Elt)).
Local Abbreviation Weights := (Weights (Elt:=Elt)).
Local Abbreviation Event := (Event (Column:=Column) (Elt:=Elt)).
Local Abbreviation World := (World (Column:=Column) (Tensor:=Tensor) (Elt:=Elt)).
Local Abbreviation M := (M (Column:=Column) (Tensor:=Tensor) (Elt:=Elt)).
Local Abbreviation Ext := (Ext (Column:=Column) (Tensor:=Tensor) (Elt:=Elt)).
Local Abbreviation is_insert_call := (is_insert_call (Column:=Column) (Elt:=Elt)).
Local Abbreviation insert_calls := (insert_calls (Column:=Column) (Elt:=Elt)).
Local Abbreviation dnn_calls := (dnn_calls (Column:=Column) (Elt:=Elt)).
Local Abbreviation weighted_sum_calls :=
  (weighted_sum_calls (Column:=Column) (Elt:=Elt)).
Local Abbreviation in_collection :=
  (in_collection (Column:=Column) (Tensor:=Tensor) (Elt:=Elt)).
Local Abbreviation add_to_collection :=
  (add_to_collection (Column:=Column) (Tensor:=Tensor) (Elt:=Elt)).
Local Abbreviation new_Variable :=
  (new_Variable (Column:=Column) (Tensor:=Tensor) (Elt:=Elt)).
Local Abbreviation _log_variable :=
  (_log_variable (Column:=Column) (Tensor:=Tensor) (Elt:=Elt)).
Local Abbreviation width_is := (width_is (Elt:=Elt)).
Local Abbreviation row_at := (row_at (Elt:=Elt)).
Local Abbreviation entry := (entry (Elt:=Elt)).
Local Abbreviation concat_feature_axis := (concat_feature_axis (Elt:=Elt)).

(** ** What [transform] does, case by case *)

Ltac unfold_M :=
  cbv [mbind M_bind bind mret M_ret ret emit gets ext raise pure_result] in *.

Lemma transform_hit k w t :
  columns_to_tensors w !! k = Some t →
  transform k w = (w, [LogTransforming k], Ok t).
Proof.
  intros Hk. unfold transform. unfold_M. by rewrite Hk.
Qed.

Lemma transform_miss_name s w :
  columns_to_tensors w !! KName s = None →
  transform (KName s) w =
    (w, [LogTransforming (KName s)],
     Raise (AttributeError
       "'str' object has no attribute 'insert_transformed_feature'")).
Proof.
  intros Hk. unfold transform. unfold_M. by rewrite Hk.
Qed.

Lemma transform_miss_column c w :
  columns_to_tensors w !! KCol c = None →
  transform (KCol c) w =
    let '(w', r) := insert_transformed_feature c w in
    let tr := [LogTransforming (KCol c); CallInsertTransformedFeature c] in
    match r with
    | Raise e => (w', tr, Raise e)
    | Ok _ =>
        match columns_to_tensors w' !! KCol c with
        | Some t => (w', tr, Ok t)
        | None =>
            (w', tr,
             Raise (ValueError ("Column " +:+ name c +:+ " is not supported.")))
        end
    end.
Proof.
  intros Hk. unfold transform, call_insert_transformed_feature. unfold_M.
  rewrite Hk.
  destruct (insert_transformed_feature c w) as [w' [[]|e]]; [|done].
  by destruct (columns_to_tensors w' !! KCol c).
Qed.

(** [transform] writes nothing itself: the world it leaves is the one it
    found or the one the column's method left. *)
Lemma transform_world k w :
  (transform k w).1.1 = w ∨
  ∃ c, k = KCol c ∧ columns_to_tensors w !! k = None ∧
       (transform k w).1.1 = (insert_transformed_feature c w).1.
Proof.
  destruct (columns_to_tensors w !! k) as [t|] eqn:Hk.
  - left. by rewrite (transform_hit _ _ _ Hk).
  - destruct k as [s|c].
    + left. by rewrite (transform_miss_name _ _ Hk).
    + right. exists c. split_and!; [done..|].
      rewrite (transform_miss_column _ _ Hk).
      destruct (insert_transformed_feature c w) as [w' [[]|e]]; simpl; [|done].
      by destruct (columns_to_tensors w' !! KCol c).
Qed.

Lemma transform_returns k w w' tr t :
  transform k w = (w', tr, Ok t) → columns_to_tensors w' !! k = Some t.
Proof.
  destruct (columns_to_tensors w !! k) as [t0|] eqn:Hk.
  - rewrite (transform_hit _ _ _ Hk). by intros [= <- _ <-].
  - destruct k as [s|c].
    + by rewrite (transform_miss_name _ _ Hk).
    + rewrite (transform_miss_column _ _ Hk).
      destruct (insert_transformed_feature c w) as [w1 [[]|e]]; simpl; [|done].
      destruct (columns_to_tensors w1 !! KCol c) eqn:Hc; [|done].
      by intros [= <- _ <-].
Qed.

Lemma transform_preserves k w :
  insert_adds_only →
  columns_to_tensors w ⊆ columns_to_tensors (transform k w).1.1.
Proof.
  intros Hadd.
  destruct (transform_world k w) as [Hw|(c & -> & Hk & Hw)]; rewrite Hw; [done|].
  by apply Hadd.
Qed.

Lemma transform_calls_preserves ks w :
  insert_adds_only →
  columns_to_tensors w ⊆ columns_to_tensors (transform_calls ks w).1.1.
Proof.
  intros Hadd. revert w. induction ks as [|k ks IH]; intros w; simpl; [done|].
  pose proof (transform_preserves k w Hadd) as Hk.
  destruct (transform k w) as [[w1 t1] r]. specialize (IH w1).
  destruct (transform_calls ks w1) as [[w2 t2] rs]. simpl in *.
  by etrans.
Qed.

(** ** The events of [transform] *)

Lemma transform_trace k w :
  (transform k w).1.2 = [LogTransforming k] ∨
  ∃ c, k = KCol c ∧
       (transform k w).1.2 =
         [LogTransforming k; CallInsertTransformedFeature c].
Proof.
  destruct (columns_to_tensors w !! k) as [t|] eqn:Hk.
  - left. by rewrite (transform_hit _ _ _ Hk).
  - destruct k as [s|c].
    + left. by rewrite (transform_miss_name _ _ Hk).
    + right. exists c. split; [done|]. rewrite (transform_miss_column _ _ Hk).
      destruct (insert_transformed_feature c w) as [w' [[]|e]]; simpl; [|done].
      by destruct (columns_to_tensors w' !! KCol c).
Qed.

Lemma transform_dnn_calls k w w' tr r :
  transform k w = (w', tr, r) → dnn_calls tr = [] ∧ weighted_sum_calls tr = [].
Proof.
  intros Htr. destruct (transform_trace k w) as [Ht|(c & -> & Ht)];
    rewrite Htr in Ht; simpl in Ht; by subst tr.
Qed.






(** ** [check_feature_columns]: either every key is new, or the loop
    stops at the first column whose key was seen before *)
Lemma check_loop_cases seen l :
  (check_loop seen l = Ok () ∧ NoDup (key <$> l) ∧ ∀ f, f ∈ l → key f ∉ seen) ∨
  (∃ l1 f l2, l = l1 ++ f :: l2 ∧ NoDup (key <$> l1) ∧
     (∀ g, g ∈ l1 → key g ∉ seen) ∧
     (key f ∈ seen ∨ key f ∈ key <$> l1) ∧
     check_loop seen l =
       Raise (ValueError ("Duplicate feature column key found: " +:+ key f))).
Proof.
  revert seen. induction l as [|f rest IH]; intros seen; simpl.
  - left. split_and!; [done|constructor|]. by intros f ?%elem_of_nil.
  - destruct (decide (key f ∈ seen)) as [Hin|Hnin].
    + right. exists [], f, rest. split_and!; try done.
      * constructor.
      * by intros g ?%elem_of_nil.
      * by left.
    + assert (∀ l' : list Column,
                (∀ h, h ∈ l' → key h ∉ ({[key f]} ∪ seen : gset string)) →
                (key f ∉ key <$> l') ∧ (∀ h, h ∈ f :: l' → key h ∉ seen)) as Hstep.
      { intros l' Hfresh. split.
        - intros (h & Hh & Hhin)%list_elem_of_fmap.
          apply (Hfresh h Hhin). apply elem_of_union_l. by apply elem_of_singleton.
        - intros h [->|Hh]%elem_of_cons; [done|].
          intros Hseen. apply (Hfresh h Hh). by apply elem_of_union_r. }
      destruct (IH ({[key f]} ∪ seen)) as
        [(Hok & Hnd & Hfresh)|(l1 & g & l2 & -> & Hnd & Hfresh & Hg & Hraise)].
      * destruct (Hstep rest Hfresh) as [Hf Hrest].
        left. split_and!; [done| |done]. by constructor.
      * destruct (Hstep l1 Hfresh) as [Hf Hl1].
        right. exists (f :: l1), g, l2. split_and!; [done| |done| |done].
        -- simpl. by constructor.
        -- destruct Hg as [[Hg%elem_of_singleton|Hg]%elem_of_union|Hg].
           ++ right. simpl. rewrite Hg. by left.
           ++ by left.
           ++ right. simpl. by right.
Qed.

Lemma check_loop_unique l :
  NoDup (key <$> l) → check_loop ∅ l = Ok ().
Proof.
  intros Hnd.
  destruct (check_loop_cases ∅ l) as
    [(Hok & _)|(l1 & f & l2 & -> & _ & _ & [Hf|Hf] & _)]; [done|set_solver|].
  rewrite fmap_app, fmap_cons in Hnd.
  apply NoDup_app in Hnd as (_ & Hnd & _). exfalso. apply (Hnd (key f) Hf).
  by left.
Qed.

Lemma check_loop_duplicate l :
  ¬ NoDup (key <$> l) →
  ∃ l1 f l2, l = l1 ++ f :: l2 ∧ NoDup (key <$> l1) ∧ key f ∈ key <$> l1 ∧
    check_loop ∅ l =
      Raise (ValueError ("Duplicate feature column key found: " +:+ key f)).
Proof.
  intros Hnd.
  destruct (check_loop_cases ∅ l) as
    [(_ & Hok & _)|(l1 & f & l2 & -> & Hl1 & _ & [Hf|Hf] & Hr)];
    [done|set_solver|].
  by exists l1, f, l2.
Qed.

(** ** The transformer's cache *)

(** C1 (as amended): when the argument of [transform] -- a feature column,
    or a raw string name passed in its place -- is itself a key of the
    mapping, [transform] returns the stored value and leaves the world as
    it found it: no entry is added, removed or modified, and the only
    event is the logging line, so [insert_transformed_feature] is not
    invoked.  (The test is on the argument itself; an entry under the
    column's name does not count for the column.) *)
Theorem transform_cached_returns_stored k w :
  k ∈ dom (columns_to_tensors w) →
  ∃ t, columns_to_tensors w !! k = Some t ∧
       transform k w = (w, [LogTransforming k], Ok t) ∧
       ∀ c, insert_calls c (transform k w).1.2 = 0.
Proof.
  intros [t Hk]%elem_of_dom. exists t.
  rewrite (transform_hit _ _ _ Hk). split_and!; try done.
Qed.

(** C3: for a column that is not in the mapping, once its
    [insert_transformed_feature] has returned, [transform] raises the
    "not supported" [ValueError] exactly when the mapping still has no
    entry for the column, and returns the entry when there is one.  (When
    [insert_transformed_feature] itself raises, that exception goes to
    the caller.) *)
Theorem transform_unsupported_iff c w :
  columns_to_tensors w !! KCol c = None →
  (∀ w', insert_transformed_feature c w = (w', Ok ()) →
     ((transform (KCol c) w).2 =
        Raise (ValueError ("Column " +:+ name c +:+ " is not supported."))
      ↔ columns_to_tensors w' !! KCol c = None) ∧
     (∀ t, columns_to_tensors w' !! KCol c = Some t →
        transform (KCol c) w =
          (w', [LogTransforming (KCol c); CallInsertTransformedFeature c],
           Ok t))) ∧
  (∀ w' e, insert_transformed_feature c w = (w', Raise e) →
     transform (KCol c) w =
       (w', [LogTransforming (KCol c); CallInsertTransformedFeature c],
        Raise e)).
Proof.
  intros Hk. rewrite (transform_miss_column _ _ Hk). split.
  - intros w' ->. split.
    + destruct (columns_to_tensors w' !! KCol c); simpl; split; done.
    + by intros t ->.
  - by intros w' e ->.
Qed.

(** C9: [transform] writes nothing to the mapping itself: the world it
    leaves is the one it found, or the one the column's
    [insert_transformed_feature] left when the column had no entry.  So,
    columns only adding entries, a key that is present keeps its value
    through every sequence of [transform] calls, returning or raising:
    the mapping only grows. *)
Theorem present_key_never_overwritten :
  (∀ k w,
     (transform k w).1.1 = w ∨
     ∃ c, k = KCol c ∧ columns_to_tensors w !! KCol c = None ∧
          (transform k w).1.1 = (insert_transformed_feature c w).1) ∧
  (insert_adds_only →
   ∀ ks w k v,
     columns_to_tensors w !! k = Some v →
     columns_to_tensors w ⊆ columns_to_tensors (transform_calls ks w).1.1 ∧
     columns_to_tensors (transform_calls ks w).1.1 !! k = Some v).
Proof.
  split.
  - intros k w. destruct (transform_world k w) as [Hw|(c & -> & Hk & Hw)].
    + by left.
    + right. by exists c.
  - intros Hadd ks w k v Hk.
    pose proof (transform_calls_preserves ks w Hadd) as Hsub.
    split; [done|]. by eapply lookup_weaken.
Qed.


(** ** Validation *)

(** C4: with pairwise distinct keys [check_feature_columns] returns; with
    two columns of equal key it raises the [ValueError] that names a
    duplicated key, at the first column (in the caller's order) whose key
    occurred before -- the columns before it have distinct keys, so it is
    the second occurrence of its key -- and whatever follows is not
    looked at. *)
Theorem check_feature_columns_spec feature_columns w :
  (NoDup (key <$> feature_columns) →
     check_feature_columns feature_columns w = (w, [], Ok ())) ∧
  ((∃ i j f g, i < j ∧ feature_columns !! i = Some f ∧
               feature_columns !! j = Some g ∧ key f = key g) →
     ∃ l1 f l2, feature_columns = l1 ++ f :: l2 ∧
       NoDup (key <$> l1) ∧ key f ∈ key <$> l1 ∧
       ∀ l2', check_feature_columns (l1 ++ f :: l2') w =
         (w, [],
          Raise (ValueError ("Duplicate feature column key found: " +:+ key f)))).
Proof.
  unfold check_feature_columns, pure_result. split.
  - intros Hnd. by rewrite check_loop_unique.
  - intros (i & j & f & g & Hij & Hi & Hj & Hfg).
    destruct (check_loop_duplicate feature_columns) as
      (l1 & f' & l2 & -> & Hl1 & Hf' & Hr).
    { intros Hnd. pose proof (proj1 (NoDup_alt _) Hnd) as Hnd'. clear Hnd. rename Hnd' into Hnd.
      assert (i = j); [|lia].
      apply (Hnd i j (key f)); rewrite list_lookup_fmap.
      - by rewrite Hi.
      - by rewrite Hj, Hfg. }
    exists l1, f', l2. split_and!; try done. intros l2'.
    destruct (check_loop_duplicate (l1 ++ f' :: l2')) as
      (m1 & h & m2 & Heq & Hm1 & Hh & ->).
    { rewrite fmap_app, fmap_cons. intros (_ & Hnd & _)%NoDup_app.
      apply (Hnd (key f') Hf'). by left. }
    assert (length m1 = length l1) as Hlen.
    { destruct (decide (length m1 < length l1)) as [Hlt|Hge].
      - exfalso. pose proof (proj1 (NoDup_alt _) Hl1) as Hl1'. clear Hl1. rename Hl1' into Hl1.
        apply list_elem_of_lookup in Hh as [n Hn].
        pose proof (lookup_lt_Some _ _ _ Hn) as Hn'. rewrite length_fmap in Hn'.
        assert ((key <$> l1) !! n = Some (key h)) as Hn1.
        { rewrite list_lookup_fmap in Hn |- *.
          assert (l1 !! n = m1 !! n) as ->; [|done].
          rewrite <-(lookup_app_l l1 (f' :: l2')) by lia.
          rewrite Heq. by rewrite lookup_app_l by lia. }
        assert ((key <$> l1) !! length m1 = Some (key h)) as Hn2.
        { rewrite list_lookup_fmap.
          rewrite <-(lookup_app_l l1 (f' :: l2')) by lia.
          rewrite Heq. by rewrite list_lookup_middle. }
        specialize (Hl1 _ _ _ Hn1 Hn2). lia.
      - destruct (decide (length l1 < length m1)) as [Hlt|Hge']; [|lia].
        exfalso. pose proof (proj1 (NoDup_alt _) Hm1) as Hm1'. clear Hm1. rename Hm1' into Hm1.
        apply list_elem_of_lookup in Hf' as [n Hn].
        pose proof (lookup_lt_Some _ _ _ Hn) as Hn'. rewrite length_fmap in Hn'.
        assert ((key <$> m1) !! n = Some (key f')) as Hn1.
        { rewrite list_lookup_fmap in Hn |- *.
          assert (m1 !! n = l1 !! n) as ->; [|done].
          rewrite <-(lookup_app_l m1 (h :: m2)) by lia.
          rewrite <-Heq. by rewrite lookup_app_l by lia. }
        assert ((key <$> m1) !! length l1 = Some (key f')) as Hn2.
        { rewrite list_lookup_fmap.
          rewrite <-(lookup_app_l m1 (h :: m2)) by lia.
          rewrite <-Heq. by rewrite list_lookup_middle. }
        specialize (Hm1 _ _ _ Hn1 Hn2). lia. }
    assert ((l1 ++ f' :: l2') !! length l1 = Some f') as Hf1
      by by rewrite list_lookup_middle.
    rewrite Heq, <-Hlen, list_lookup_middle in Hf1 by done.
    by injection Hf1 as ->.
Qed.

(** ** Running the monad *)

Lemma bind_returns {A B} (m : M A) (f : A → M B) (w w' : World) tr b :
  (m ≫= f) w = (w', tr, Ok b) →
  ∃ a w1 t1 t2, m w = (w1, t1, Ok a) ∧ f a w1 = (w', t2, Ok b) ∧ tr = t1 ++ t2.
Proof.
  unfold_M. destruct (m w) as [[w1 t1] [a|e]]; [|done].
  destruct (f a w1) as [[w2 t2] r] eqn:Hf. intros [= <- <- ->].
  by exists a, w1, t1, t2.
Qed.

Lemma bind_raises_first {A B} (m : M A) (f : A → M B) (w w' : World) tr e :
  m w = (w', tr, Raise e) → (m ≫= f) w = (w', tr, Raise e).
Proof. unfold_M. by intros ->. Qed.

Lemma pure_result_returns {A} (r : result A) (w w' : World) tr a :
  pure_result r w = (w', tr, Ok a) → w' = w ∧ tr = [] ∧ r = Ok a.
Proof. unfold pure_result. by intros [= <- <- ->]. Qed.

Lemma ext_returns {A} (m : Ext A) (w w' : World) tr a :
  ext m w = (w', tr, Ok a) → m w = (w', Ok a) ∧ tr = [].
Proof. unfold ext. destruct (m w) as [w1 r]. by intros [= <- <- ->]. Qed.

Lemma mret_returns {A} (a b : A) (w w' : World) tr :
  (mret a : M A) w = (w', tr, Ok b) → w' = w ∧ tr = [] ∧ a = b.
Proof. unfold_M. by intros [= <- <- ->]. Qed.

Lemma new_Variable_returns initial_value trainable cs nm (w w' : World) v :
  new_Variable initial_value trainable cs nm w = (w', Ok v) →
  v = mkVar nm (device w) initial_value.
Proof. unfold new_Variable. by intros [= _ <-]. Qed.

(** ** [sorted(set(...), key=...)] sorts by key and keeps the columns *)

Lemma insert_by_key_perm x l : insert_by_key x l ≡ₚ x :: l.
Proof.
  induction l as [|y l IH]; simpl; [done|].
  case_decide; [done|]. rewrite IH. apply Permutation_swap.
Qed.

Lemma sorted_by_key_perm l : sorted_by_key l ≡ₚ l.
Proof.
  induction l as [|x l IH]; simpl; [done|].
  by rewrite insert_by_key_perm, IH.
Qed.

Lemma key_le_trans a b c : key_le a b → key_le b c → key_le a c.
Proof. unfold key_le. intros. by etrans. Qed.

Lemma key_le_total a b : key_le a b ∨ key_le b a.
Proof. unfold key_le. apply (total String.le). Qed.

Lemma insert_by_key_sorted x l :
  StronglySorted key_le l → StronglySorted key_le (insert_by_key x l).
Proof.
  induction 1 as [|y l Hl IH Hy]; simpl.
  - repeat constructor.
  - case_decide as Hxy.
    + constructor; [by constructor|]. constructor; [done|].
      eapply Forall_impl; [exact Hy|]. intros z Hz. by eapply key_le_trans.
    + constructor; [done|]. rewrite insert_by_key_perm. constructor; [|done].
      by destruct (key_le_total x y).
Qed.

Lemma sorted_by_key_sorted l : StronglySorted key_le (sorted_by_key l).
Proof.
  induction l as [|x l IH]; simpl; [constructor|by apply insert_by_key_sorted].
Qed.

Lemma unique_keys_inj l x y :
  NoDup (key <$> l) → x ∈ l → y ∈ l → key x = key y → x = y.
Proof.
  intros Hnd [i Hi]%list_elem_of_lookup [j Hj]%list_elem_of_lookup Hxy.
  assert (i = j) as ->; [|congruence].
  apply (proj1 (NoDup_alt _) Hnd i j (key x)); rewrite list_lookup_fmap.
  - by rewrite Hi.
  - by rewrite Hj, Hxy.
Qed.

(** With distinct keys the sorted list does not depend on the order in
    which the columns come, so neither on the iteration order of [set]. *)
Lemma sorted_by_key_unique l1 l2 :
  NoDup (key <$> l1) → l1 ≡ₚ l2 → sorted_by_key l1 = sorted_by_key l2.
Proof.
  intros Hnd Hperm.
  apply (StronglySorted_unique_strong key_le);
    [|apply sorted_by_key_sorted..|by rewrite !sorted_by_key_perm].
  intros x y Hx Hy Hxy Hyx.
  rewrite sorted_by_key_perm in Hx. rewrite sorted_by_key_perm, <-Hperm in Hy.
  apply (unique_keys_inj l1); [done..|].
  by apply (anti_symm String.le).
Qed.

Lemma set_of_perm (l : list Column) : NoDup l → set_of l ≡ₚ l.
Proof. apply elements_list_to_set. Qed.

Lemma sorted_set_of l l' :
  NoDup (key <$> l) → l' ≡ₚ l →
  sorted_by_key (set_of l') = sorted_by_key l.
Proof.
  intros Hnd Hperm. symmetry. apply sorted_by_key_unique; [done|].
  rewrite set_of_perm; [done|]. rewrite Hperm. by eapply NoDup_fmap_1.
Qed.

Lemma sorted_by_key_strict l :
  NoDup (key <$> l) → StronglySorted key_lt (sorted_by_key l).
Proof.
  intros Hnd.
  assert (NoDup (key <$> sorted_by_key l)) as Hnd'.
  { by rewrite sorted_by_key_perm. }
  pose proof (sorted_by_key_sorted l) as Hs.
  induction Hs as [|x l' Hl' IH Hx]; [constructor|].
  simpl in Hnd'. apply NoDup_cons in Hnd' as [Hx' Hnd'].
  constructor; [by apply IH|].
  apply Forall_forall. intros y Hy. split.
  - rewrite Forall_forall in Hx. by apply Hx.
  - intros Hyx. apply Hx'. rewrite Forall_forall in Hx.
    assert (key x = key y) as ->.
    { apply (anti_symm String.le); [by apply Hx|done]. }
    by apply list_elem_of_fmap_2.
Qed.

(** ** Concatenation along the feature axis *)

Lemma zip_with_app_width (a b : Matrix) wa wb :
  width_is wa a → width_is wb b → width_is (wa + wb) (zip_with app a b).
Proof.
  unfold width_is. intros Ha. revert b.
  induction Ha as [|x a Hx Ha IH]; intros [|y b] Hb; simpl; try constructor.
  - rewrite length_app. apply Forall_cons in Hb as [Hy _]. lia.
  - apply IH. by apply Forall_cons in Hb as [_ ?].
Qed.

Lemma concat_feature_axis_spec slices out :
  concat_feature_axis slices = Ok out →
  slices ≠ [] ∧
  Forall (λ m, length m = length out) slices ∧
  (∀ i, i < length out →
     out !! i = Some (concat (row_at i <$> slices))) ∧
  (∀ widths, Forall2 width_is widths slices → width_is (sum_list widths) out).
Proof.
  revert out. induction slices as [|m rest IH]; intros out; simpl; [done|].
  destruct rest as [|m' rest'].
  - intros [= ->]. split_and!; [done|by repeat constructor| |].
    + intros i Hi. simpl. rewrite app_nil_r. unfold row_at.
      destruct (lookup_lt_is_Some_2 _ _ Hi) as [row ->]. done.
    + intros widths Hw. apply Forall2_cons_inv_r in Hw as (wd & ws & Hwd & Hws & ->).
      apply Forall2_nil_inv_r in Hws as ->. simpl. by rewrite Nat.add_0_r.
  - destruct (concat_feature_axis (m' :: rest')) as [r|e] eqn:Hr; [|done].
    simpl. destruct (IH r eq_refl) as (_ & Hlen & Hrows & Hwidth).
    case_decide as Hmr; [|done]. intros [= <-].
    assert (length (zip_with app m r) = length r) as Hzl.
    { rewrite length_zip_with. lia. }
    split_and!; [done| | |].
    + rewrite Hzl. by apply Forall_cons.
    + intros i Hi. rewrite Hzl in Hi. rewrite lookup_zip_with.
      rewrite (Hrows i Hi). rewrite <-Hmr in Hi.
      destruct (lookup_lt_is_Some_2 _ _ Hi) as [row Hrow]. rewrite Hrow. simpl.
      replace (row_at i m) with row; [done|]. unfold row_at. by rewrite Hrow.
    + intros widths Hw.
      apply Forall2_cons_inv_r in Hw as (wd & ws & Hwd & Hws & ->).
      simpl. apply zip_with_app_width; [done|]. by apply Hwidth.
Qed.

(** ** The input-layer builder *)

Lemma input_loop_returns cols wc trainable acc w w' tr outs :
  input_loop cols wc trainable acc w = (w', tr, Ok outs) →
  ∃ slices, outs = acc ++ slices ∧ input_steps wc trainable cols w w' slices ∧
            dnn_calls tr = cols.
Proof.
  revert acc w tr. induction cols as [|c cols IH]; intros acc w tr; simpl.
  - unfold_M. intros [= <- <- <-]. exists []. rewrite app_nil_r.
    split_and!; [done|constructor|done].
  - intros (tensor & w1 & t1 & t2 & Htr & Hrest & ->)%bind_returns.
    apply bind_returns in Hrest as ([] & w1' & t1' & t3 & Hemit & Hrest & ->).
    apply bind_returns in Hrest as (slice & w2 & t2' & t4 & Hdnn & Hrest & ->).
    apply IH in Hrest as (slices & -> & Hsteps & Hcalls).
    revert Hemit Hdnn. unfold_M. intros [= <- <-].
    destruct (to_dnn_input_layer c tensor wc trainable w1) as [w2' r] eqn:Hd.
    intros [= -> <- ->].
    exists (slice :: slices). split_and!.
    + by rewrite <-app_assoc.
    + by econstructor.
    + unfold dnn_calls in *. rewrite !omap_app.
      destruct (transform_dnn_calls _ _ _ _ _ Htr) as [Ht1 _].
      unfold dnn_calls in Ht1. rewrite Ht1. simpl. by rewrite Hcalls.
Qed.

Lemma input_loop_complete cols wc trainable acc w w' slices :
  input_steps wc trainable cols w w' slices →
  ∃ tr, input_loop cols wc trainable acc w = (w', tr, Ok (acc ++ slices)).
Proof.
  intros Hsteps. revert acc.
  induction Hsteps as [w|c cs w w1 t1 tensor w2 slice w3 slices Htr Hdnn _ IH];
    intros acc; simpl.
  - exists []. unfold_M. by rewrite app_nil_r.
  - destruct (IH (acc ++ [slice])) as [tr Hloop].
    exists (t1 ++ [CallToDnnInputLayer c] ++ [] ++ tr).
    unfold_M. rewrite Htr, Hdnn, Hloop. by rewrite <-app_assoc.
Qed.

Lemma bind_after_pure {A B} (m : M A) (f : A → M B) (w : World) a :
  m w = (w, [], Ok a) → (m ≫= f) w = f a w.
Proof. unfold_M. intros ->. by destruct (f a w) as [[w2 t2] r]. Qed.

Lemma input_from_feature_columns_unfold fcs fcs' wc name trainable w :
  NoDup (key <$> fcs) → fcs' ≡ₚ fcs →
  input_from_feature_columns fcs' wc name trainable w =
    (input_loop (sorted_by_key fcs) (_add_variable_collection wc) trainable []
     ≫= λ output_tensors, pure_result (concat_feature_axis output_tensors)) w.
Proof.
  intros Hnd Hperm. unfold input_from_feature_columns.
  rewrite (bind_after_pure _ _ w ()).
  - by rewrite (sorted_set_of fcs fcs').
  - unfold check_feature_columns, pure_result.
    rewrite check_loop_unique; [done|]. by rewrite Hperm.
Qed.

(** C5: with unique keys, [input_from_feature_columns] works on the
    columns sorted by key, strictly ascending, whatever the order of the
    collection it is given: it transforms and renders them in that order
    and concatenates the slices in that order along the feature axis, so
    every output row is the concatenation of the slices' rows and the
    output width is the sum of the slices' widths. *)
Theorem input_from_feature_columns_key_order
    feature_columns weight_collections name trainable w :
  NoDup (key <$> feature_columns) →
  let columns := sorted_by_key feature_columns in
  let collections := _add_variable_collection weight_collections in
  (columns ≡ₚ feature_columns ∧ StronglySorted key_lt columns) ∧
  (∀ reordered, reordered ≡ₚ feature_columns →
     input_from_feature_columns reordered weight_collections name trainable w =
     input_from_feature_columns feature_columns weight_collections name
       trainable w) ∧
  (∀ w' tr out,
     input_from_feature_columns feature_columns weight_collections name
       trainable w = (w', tr, Ok out) →
     dnn_calls tr = columns ∧
     ∃ slices,
       input_steps collections trainable columns w w' slices ∧
       concat_feature_axis slices = Ok out ∧
       Forall (λ m, length m = length out) slices ∧
       (∀ i, i < length out →
          out !! i = Some (concat (row_at i <$> slices))) ∧
       (∀ widths, Forall2 width_is widths slices →
          width_is (sum_list widths) out)) ∧
  (∀ w' slices out,
     input_steps collections trainable columns w w' slices →
     concat_feature_axis slices = Ok out →
     ∃ tr, input_from_feature_columns feature_columns weight_collections name
             trainable w = (w', tr, Ok out)).
Proof.
  intros Hnd columns collections. split_and!.
  - apply sorted_by_key_perm.
  - by apply sorted_by_key_strict.
  - intros reordered Hperm.
    by rewrite !(input_from_feature_columns_unfold feature_columns).
  - intros w' tr out.
    rewrite (input_from_feature_columns_unfold feature_columns) by done.
    intros (outs & w1 & t1 & t2 & Hloop & Hcat & ->)%bind_returns.
    apply input_loop_returns in Hloop as (slices & -> & Hsteps & Hcalls).
    revert Hcat. unfold pure_result. simpl. intros [= -> <- Hcat].
    split; [by rewrite app_nil_r|].
    exists slices. split_and!; [done..| | |];
      by apply (concat_feature_axis_spec slices out).
  - intros w' slices out Hsteps Hcat. subst columns collections.
    rewrite (input_from_feature_columns_unfold feature_columns) by done.
    destruct (input_loop_complete _ _ _ [] _ _ _ Hsteps) as [tr Hloop].
    exists (tr ++ []). unfold_M. rewrite Hloop. simpl. by rewrite Hcat.
Qed.

(** ** Sums of contributions and the bias *)

Lemma add_elementwise_entry a b r i j :
  add_elementwise a b = Ok r →
  entry r i j = add_opt (entry a i j) (entry b i j).
Proof.
  unfold add_elementwise. case_decide; [|done]. intros [= <-].
  unfold entry, add_opt. rewrite lookup_zip_with.
  destruct (a !! i) as [x|], (b !! i) as [y|]; simpl; try done.
  - by rewrite lookup_zip_with.
  - by destruct (x !! j).
Qed.

Lemma add_n_from_entry acc inputs r i j :
  add_n_from acc inputs = Ok r →
  entry r i j = foldl (λ a m, add_opt a (entry m i j)) (entry acc i j) inputs.
Proof.
  revert acc. induction inputs as [|m rest IH]; intros acc; simpl.
  - by intros [= ->].
  - destruct (add_elementwise acc m) as [acc'|e] eqn:Hadd; [|done]. simpl.
    intros Hr. rewrite (IH _ Hr). by rewrite (add_elementwise_entry _ _ _ _ _ Hadd).
Qed.

Lemma add_n_entry inputs r i j :
  add_n inputs = Ok r → entry r i j = sum_entries i j inputs.
Proof. destruct inputs as [|m rest]; [done|]. apply add_n_from_entry. Qed.

Lemma bias_add_spec value bias r :
  bias_add value bias = Ok r →
  length r = length value ∧
  width_is (length (var_value bias)) r ∧
  ∀ i j, entry r i j = add_opt (entry value i j) (var_value bias !! j).
Proof.
  unfold bias_add. case_decide as Hw; [|done]. intros [= <-]. split_and!.
  - by rewrite length_fmap.
  - unfold width_is. rewrite Forall_fmap. eapply Forall_impl; [exact Hw|].
    intros row Hrow. simpl in *. rewrite length_zip_with. lia.
  - intros i j. unfold entry, add_opt. rewrite list_lookup_fmap.
    destruct (value !! i) as [row|]; simpl; [|done].
    by rewrite lookup_zip_with.
Qed.

(** ** The weighted-sum builder *)

Lemma log_variable_run variable w :
  ∃ tr, _log_variable variable w = (w, tr, Ok ()) ∧
        weighted_sum_calls tr = [].
Proof.
  destruct variable as [v|vs]; simpl.
  - by exists [LogCreatedVariable v].
  - induction vs as [|v vs [tr [IH1 IH2]]]; simpl.
    + by exists [].
    + exists (LogCreatedVariable v :: tr). unfold_M. by rewrite IH1.
Qed.

Lemma weighted_sum_loop_returns cols n wc trainable outs c2v w w' tr outs' c2v' :
  weighted_sum_loop cols n wc trainable outs c2v w = (w', tr, Ok (outs', c2v')) →
  ∃ pvs, weighted_sum_steps n wc trainable cols w w' pvs ∧
         outs' = outs ++ pvs.*1 ∧
         weighted_sum_calls tr = cols ∧
         (∀ c, c ∉ cols → c2v' !! c = c2v !! c) ∧
         (NoDup cols → Forall2 (λ c pv, c2v' !! c = Some pv.2) cols pvs).
Proof.
  revert outs c2v w tr. induction cols as [|c cols IH]; intros outs c2v w tr; simpl.
  - unfold_M. intros [= <- <- <- <-]. exists []. rewrite app_nil_r.
    split_and!; try done; constructor.
  - intros (tensor & w1 & t1 & t2 & Htr & Hrest & ->)%bind_returns.
    apply bind_returns in Hrest as ([] & w1' & t1' & t3 & Hemit & Hrest & ->).
    apply bind_returns in Hrest as (pv & w2 & t2' & t4 & Hws & Hrest & ->).
    apply bind_returns in Hrest as ([] & w2' & t5 & t6 & Hlog & Hrest & ->).
    destruct (log_variable_run pv.2 w2) as (tlog & Hlog' & Hlogcalls).
    rewrite Hlog' in Hlog. injection Hlog as <- <-.
    apply IH in Hrest as (pvs & Hsteps & -> & Hcalls & Hother & Hdup).
    revert Hemit Hws. unfold_M. intros [= <- <-].
    destruct (to_weighted_sum c tensor n wc trainable w1) as [w2' r] eqn:Hd.
    intros [= -> <- ->].
    exists (pv :: pvs). split_and!.
    + by econstructor.
    + by rewrite fmap_cons, <-app_assoc.
    + unfold weighted_sum_calls in *. rewrite !omap_app.
      destruct (transform_dnn_calls _ _ _ _ _ Htr) as [_ Ht1].
      unfold weighted_sum_calls in Ht1. rewrite Ht1, Hlogcalls. simpl.
      by rewrite Hcalls.
    + intros c' [Hne Hc']%not_elem_of_cons.
      by rewrite (Hother c' Hc'), lookup_insert_ne.
    + intros [Hc Hnd]%NoDup_cons. constructor; [|by apply Hdup].
      by rewrite (Hother c Hc), lookup_insert_eq.
Qed.

Lemma weighted_sum_loop_complete cols n wc trainable outs c2v w w' pvs :
  weighted_sum_steps n wc trainable cols w w' pvs →
  ∃ tr c2v', weighted_sum_loop cols n wc trainable outs c2v w
               = (w', tr, Ok (outs ++ pvs.*1, c2v')).
Proof.
  intros Hsteps. revert outs c2v.
  induction Hsteps as [w|c cs w w1 t1 tensor w2 pv w3 pvs Htr Hws _ IH];
    intros outs c2v; simpl.
  - exists [], c2v. unfold_M. by rewrite app_nil_r.
  - destruct (IH (outs ++ [pv.1]) (<[c := pv.2]> c2v)) as (tr & c2v' & Hloop).
    destruct (log_variable_run pv.2 w2) as (tlog & Hlog & _).
    exists (t1 ++ [CallToWeightedSum c] ++ [] ++ tlog ++ tr), c2v'.
    unfold_M. rewrite Htr, Hws, Hlog, Hloop. by rewrite <-app_assoc.
Qed.

Lemma zeros_length n : length (zeros n) = n.
Proof. apply length_replicate. Qed.

Lemma weighted_sum_from_feature_columns_unfold fcs n wc name trainable w :
  NoDup (key <$> fcs) →
  weighted_sum_from_feature_columns fcs n wc name trainable w =
    (acc ← weighted_sum_loop (sorted_by_key fcs) n wc trainable [] ∅;
     predictions_no_bias ← pure_result (add_n acc.1);
     bias ← ext (new_Variable (zeros n) Variable_trainable_default
                   (_add_variable_collection wc) "bias_weight");
     _log_variable (OneVar bias);;
     predictions ← pure_result (bias_add predictions_no_bias bias);
     mret (predictions, acc.2, bias)) w.
Proof.
  intros Hnd. unfold weighted_sum_from_feature_columns.
  rewrite (bind_after_pure _ _ w ()).
  - rewrite (sorted_set_of fcs fcs) by done. unfold_M.
    destruct (weighted_sum_loop _ _ _ _ _ _ w) as [[w1 t1] [[outs c2v]|e]]; done.
  - unfold check_feature_columns, pure_result. by rewrite check_loop_unique.
Qed.

(** C6: with unique keys, a call of [weighted_sum_from_feature_columns]
    that returns gives (1) predictions whose every entry is the sum, over
    the columns in key order, of the entries of the columns' weighted-sum
    contributions, plus the entry of the bias vector, which has length
    [num_outputs]; (2) a dictionary whose keys are the requested columns,
    each mapped to the variable(s) its [to_weighted_sum] returned; (3) the
    bias variable itself, created as zeros under the name "bias_weight".
    It does return when every column can be transformed and weighted and
    the contributions have one shape of width [num_outputs]. *)
Theorem weighted_sum_from_feature_columns_spec
    feature_columns num_outputs weight_collections name trainable w :
  NoDup (key <$> feature_columns) →
  let columns := sorted_by_key feature_columns in
  (∀ w' tr predictions column_to_variable bias,
     weighted_sum_from_feature_columns feature_columns num_outputs
       weight_collections name trainable w
       = (w', tr, Ok (predictions, column_to_variable, bias)) →
     weighted_sum_calls tr = columns ∧
     ∃ w1 contributions,
       weighted_sum_steps num_outputs weight_collections trainable
         columns w w1 contributions ∧
       new_Variable (zeros num_outputs) Variable_trainable_default
         (_add_variable_collection weight_collections) "bias_weight" w1
         = (w', Ok bias) ∧
       length (var_value bias) = num_outputs ∧
       (∀ i j, entry predictions i j =
               add_opt (sum_entries i j contributions.*1)
                       (var_value bias !! j)) ∧
       width_is num_outputs predictions ∧
       (∀ c, c ∈ feature_columns ↔ is_Some (column_to_variable !! c)) ∧
       Forall2 (λ c pv, column_to_variable !! c = Some pv.2)
               columns contributions) ∧
  (∀ w1 contributions total,
     weighted_sum_steps num_outputs weight_collections trainable
       columns w w1 contributions →
     add_n contributions.*1 = Ok total →
     width_is num_outputs total →
     ∃ w' tr predictions column_to_variable bias,
       weighted_sum_from_feature_columns feature_columns num_outputs
         weight_collections name trainable w
         = (w', tr, Ok (predictions, column_to_variable, bias))).
Proof.
  intros Hnd columns. split.
  - intros w' tr predictions c2v bias.
    rewrite weighted_sum_from_feature_columns_unfold by done.
    intros ([outs c2v'] & w1 & t1 & t2 & Hloop & Hrest & ->)%bind_returns.
    apply bind_returns in Hrest as (pnb & w2 & t3 & t4 & Hadd & Hrest & ->).
    apply bind_returns in Hrest as (bias' & w3 & t5 & t6 & Hvar & Hrest & ->).
    apply bind_returns in Hrest as ([] & w4 & t7 & t8 & Hlog & Hrest & ->).
    apply bind_returns in Hrest as (pred & w5 & t9 & t10 & Hbias & Hret & ->).
    apply weighted_sum_loop_returns in Hloop
      as (pvs & Hsteps & Houts & Hcalls & Hother & Hdup).
    apply pure_result_returns in Hadd as (-> & -> & Hadd).
    apply ext_returns in Hvar as (Hnew & ->).
    destruct (log_variable_run (OneVar bias') w3) as (tlog & Hlog' & Hlogcalls).
    rewrite Hlog' in Hlog. injection Hlog as <- <-.
    apply pure_result_returns in Hbias as (-> & -> & Hbias).
    apply mret_returns in Hret as (-> & -> & [= <- <- <-]). simpl in *.
    pose proof (new_Variable_returns _ _ _ _ _ _ _ Hnew) as Hb.
    destruct (bias_add_spec _ _ _ Hbias) as (Hlen & Hwidth & Hentry).
    assert (length (var_value bias') = num_outputs) as Hbl.
    { rewrite Hb. simpl. apply zeros_length. }
    split.
    { unfold weighted_sum_calls in *. rewrite !omap_app, Hcalls, Hlogcalls.
      simpl. by rewrite app_nil_r. }
    exists w1, pvs. split_and!; [done|done|done| | | |].
    + intros i j. rewrite Hentry. f_equal.
      rewrite Houts in Hadd. by apply add_n_entry.
    + by rewrite <-Hbl.
    + intros c. assert (c ∈ feature_columns ↔ c ∈ columns) as ->.
      { unfold columns. by rewrite sorted_by_key_perm. }
      split.
      * intros Hc. assert (NoDup columns) as Hcols.
        { unfold columns. rewrite sorted_by_key_perm. by eapply NoDup_fmap_1. }
        specialize (Hdup Hcols).
        apply list_elem_of_lookup in Hc as [n Hn].
        destruct (Forall2_lookup_l _ _ _ _ _ Hdup Hn) as (pv & _ & ->). by eexists.
      * intros Hsome. destruct (decide (c ∈ columns)) as [|Hc]; [done|].
        rewrite (Hother c Hc), lookup_empty in Hsome. by destruct Hsome.
    + apply Hdup. unfold columns. rewrite sorted_by_key_perm.
      by eapply NoDup_fmap_1.
  - intros w1 contributions total Hsteps Hadd Hwidth. subst columns.
    destruct (weighted_sum_loop_complete _ _ _ _ [] ∅ _ _ _ Hsteps)
      as (tr & c2v & Hloop).
    rewrite weighted_sum_from_feature_columns_unfold by done.
    unfold_M. rewrite Hloop. simpl. rewrite Hadd.
    unfold bias_add. simpl. rewrite zeros_length.
    rewrite decide_True by done. by repeat eexists.
Qed.

(** C10: when the same column occurs twice in the collection given to a
    builder, both builders raise the duplicate-key [ValueError] with the
    world untouched and nothing logged or called, although the set the
    loop would run over holds that column once. *)
Theorem builders_reject_repeated_column
    feature_columns c i j num_outputs weight_collections name trainable w :
  i ≠ j → feature_columns !! i = Some c → feature_columns !! j = Some c →
  (∃ f, f ∈ feature_columns ∧
     input_from_feature_columns feature_columns weight_collections name
       trainable w
       = (w, [], Raise (ValueError
                    ("Duplicate feature column key found: " +:+ key f))) ∧
     weighted_sum_from_feature_columns feature_columns num_outputs
       weight_collections name trainable w
       = (w, [], Raise (ValueError
                    ("Duplicate feature column key found: " +:+ key f)))) ∧
  NoDup (sorted_by_key (set_of feature_columns)) ∧
  c ∈ sorted_by_key (set_of feature_columns).
Proof.
  intros Hij Hi Hj. split_and!.
  - destruct (check_loop_duplicate feature_columns)
      as (l1 & f & l2 & Heq & _ & _ & Hraise).
    { intros Hnd. apply Hij.
      apply (proj1 (NoDup_alt _) Hnd i j (key c)); rewrite list_lookup_fmap.
      - by rewrite Hi.
      - by rewrite Hj. }
    exists f. split_and!.
    + rewrite Heq. apply elem_of_app. right. by left.
    + unfold input_from_feature_columns. apply bind_raises_first.
      unfold check_feature_columns, pure_result. by rewrite Hraise.
    + unfold weighted_sum_from_feature_columns. apply bind_raises_first.
      unfold check_feature_columns, pure_result. by rewrite Hraise.
  - rewrite sorted_by_key_perm. unfold set_of. apply NoDup_elements.
  - rewrite sorted_by_key_perm. unfold set_of.
    apply elem_of_elements, elem_of_list_to_set.
    by eapply list_elem_of_lookup_2.
Qed.

(** ** The collections of the bias variable *)

Lemma add_to_collection_in cname v w : in_collection cname v (add_to_collection cname v w).
Proof.
  unfold in_collection, add_to_collection. simpl. rewrite lookup_insert_eq. simpl.
  apply elem_of_app. right. by left.
Qed.

Lemma add_to_collection_keeps cname cname' v v' w :
  in_collection cname v w → in_collection cname v (add_to_collection cname' v' w).
Proof.
  unfold in_collection, add_to_collection. simpl. intros Hin.
  destruct (decide (cname' = cname)) as [->|Hne].
  - rewrite lookup_insert_eq. simpl. apply elem_of_app. by left.
  - by rewrite lookup_insert_ne.
Qed.

Lemma add_to_collections_in cname v w names :
  cname ∈ names →
  in_collection cname v (foldr (λ c, add_to_collection c v) w names).
Proof.
  induction names as [|c names IH]; simpl; [by intros ?%elem_of_nil|].
  intros [->|Hin]%elem_of_cons.
  - apply add_to_collection_in.
  - by apply add_to_collection_keeps, IH.
Qed.

Lemma new_Variable_trainable initial_value cs nm w w' v :
  new_Variable initial_value true cs nm w = (w', Ok v) →
  in_collection GraphKeys.TRAINABLE_VARIABLES v w'.
Proof.
  unfold new_Variable. intros [= <- <-].
  apply add_to_collections_in, elem_of_elements, elem_of_list_to_set.
  apply elem_of_app. right. by left.
Qed.

(** C7, what the code does: the bias variable is created without the
    [trainable] argument, so whenever [weighted_sum_from_feature_columns]
    returns, its bias variable is in [GraphKeys.TRAINABLE_VARIABLES],
    also when the call was made with [trainable=False]. *)
Theorem bias_variable_always_trainable
    feature_columns num_outputs weight_collections name trainable
    w w' tr predictions column_to_variable bias :
  weighted_sum_from_feature_columns feature_columns num_outputs
    weight_collections name trainable w
    = (w', tr, Ok (predictions, column_to_variable, bias)) →
  in_collection GraphKeys.TRAINABLE_VARIABLES bias w'.
Proof.
  unfold weighted_sum_from_feature_columns.
  intros ([] & w0 & t0 & t0' & _ & Hrest & ->)%bind_returns.
  apply bind_returns in Hrest as ([outs c2v] & w1 & t1 & t2 & _ & Hrest & ->).
  apply bind_returns in Hrest as (pnb & w2 & t3 & t4 & _ & Hrest & ->).
  apply bind_returns in Hrest as (bias' & w3 & t5 & t6 & Hvar & Hrest & ->).
  apply bind_returns in Hrest as ([] & w4 & t7 & t8 & Hlog & Hrest & ->).
  apply bind_returns in Hrest as (pred & w5 & t9 & t10 & Hbias & Hret & ->).
  apply ext_returns in Hvar as (Hnew & ->).
  destruct (log_variable_run (OneVar bias') w3) as (tlog & Hlog' & _).
  rewrite Hlog' in Hlog. injection Hlog as <- <-.
  apply pure_result_returns in Hbias as (-> & -> & Hbias).
  apply mret_returns in Hret as (-> & -> & [= <- <- <-]).
  by eapply new_Variable_trainable.
Qed.

(** * Further properties of the transformer and the builders *)

Local Abbreviation transform_log := (transform_log (Column:=Column) (Elt:=Elt)).
Local Abbreviation logged_variables :=
  (logged_variables (Column:=Column) (Elt:=Elt)).
Local Abbreviation variables_of := (variables_of (Elt:=Elt)).

(** X1: the value a [transform] call returns is the entry the mapping
    holds for the argument afterwards, so the same call made again right
    away is a cache hit: it returns the same value, changes nothing and
    only logs. *)
Theorem transform_again_is_cached k w w1 tr t :
  transform k w = (w1, tr, Ok t) →
  columns_to_tensors w1 !! k = Some t ∧
  transform k w1 = (w1, [LogTransforming k], Ok t).
Proof.
  intros Htr. apply transform_returns in Htr. split; [done|].
  by apply transform_hit.
Qed.

Lemma check_loop_returns_unique l :
  check_loop ∅ l = Ok () → NoDup (key <$> l).
Proof.
  intros Hok. destruct (check_loop_cases ∅ l) as
    [(_ & Hnd & _)|(l1 & f & l2 & _ & _ & _ & _ & Hr)]; [done|congruence].
Qed.

(** X2: a collection of columns that [check_feature_columns] accepts is
    accepted in every order, and so is every part of it. *)
Theorem check_feature_columns_subcollection l l' (w w' : World) :
  check_feature_columns l w = (w, [], Ok ()) →
  l' ⊆+ l →
  check_feature_columns l' w' = (w', [], Ok ()).
Proof.
  unfold check_feature_columns, pure_result. intros [= Hok] Hsub.
  apply check_loop_returns_unique in Hok.
  rewrite check_loop_unique; [done|].
  assert (key <$> l' ⊆+ key <$> l) as Hkeys by by apply fmap_submseteq.
  apply submseteq_sublist_r in Hkeys as (k & Hperm & Hsl).
  rewrite Hperm. by eapply sublist_NoDup.
Qed.

(** ** The calls of a builder, whatever the outcome *)

Lemma transform_transform_log k w : transform_log (transform k w).1.2 = [k].
Proof.
  by destruct (transform_trace k w) as [->|(c & -> & ->)].
Qed.

Lemma input_loop_calls_prefix cols wc trainable acc w :
  dnn_calls (input_loop cols wc trainable acc w).1.2 `prefix_of` cols.
Proof.
  revert acc w. induction cols as [|c cols IH]; intros acc w; simpl.
  - apply prefix_nil.
  - unfold_M.
    destruct (transform (KCol c) w) as [[w1 t1] [t|e]] eqn:Htr; simpl;
      destruct (transform_dnn_calls _ _ _ _ _ Htr) as [Ht1 _].
    + destruct (to_dnn_input_layer c t wc trainable w1) as [w2 [slice|e]];
        simpl.
      * specialize (IH (acc ++ [slice]) w2).
        destruct (input_loop cols wc trainable (acc ++ [slice]) w2)
          as [[w3 t3] r]. simpl in *.
        unfold dnn_calls in *. rewrite omap_app, Ht1. simpl.
        by apply prefix_cons.
      * unfold dnn_calls in *. rewrite omap_app, Ht1. simpl.
        apply prefix_cons, prefix_nil.
    + rewrite Ht1. apply prefix_nil.
Qed.

Lemma log_variable_trace variable w :
  _log_variable variable w
  = (w, LogCreatedVariable <$> variables_of variable, Ok ()).
Proof.
  destruct variable as [v|vs]; simpl; [done|].
  induction vs as [|v vs IH]; simpl; [done|]. unfold_M. by rewrite IH.
Qed.

Lemma weighted_sum_loop_calls_prefix cols n wc trainable outs c2v w :
  weighted_sum_calls
    (weighted_sum_loop cols n wc trainable outs c2v w).1.2 `prefix_of` cols.
Proof.
  revert outs c2v w. induction cols as [|c cols IH]; intros outs c2v w; simpl.
  - apply prefix_nil.
  - unfold_M.
    destruct (transform (KCol c) w) as [[w1 t1] [t|e]] eqn:Htr; simpl;
      destruct (transform_dnn_calls _ _ _ _ _ Htr) as [_ Ht1].
    + destruct (to_weighted_sum c t n wc trainable w1) as [w2 [pv|e]]; simpl.
      * rewrite log_variable_trace.
        specialize (IH (outs ++ [pv.1]) (<[c:=pv.2]> c2v) w2).
        destruct (weighted_sum_loop cols n wc trainable (outs ++ [pv.1])
                    (<[c:=pv.2]> c2v) w2) as [[w3 t3] r]. simpl in *.
        unfold weighted_sum_calls in *. rewrite omap_app, Ht1. simpl.
        rewrite omap_app.
        assert (omap (λ ev : Event,
                  match ev with CallToWeightedSum c0 => Some c0 | _ => None end)
                  (LogCreatedVariable <$> variables_of pv.2) = []) as ->.
        { by induction (variables_of pv.2). }
        by apply prefix_cons.
      * unfold weighted_sum_calls in *. rewrite omap_app, Ht1. simpl.
        apply prefix_cons, prefix_nil.
    + rewrite Ht1. apply prefix_nil.
Qed.

Lemma input_loop_log cols wc trainable acc w w' tr outs :
  input_loop cols wc trainable acc w = (w', tr, Ok outs) →
  transform_log tr = KCol <$> cols.
Proof.
  revert acc w tr. induction cols as [|c cols IH]; intros acc w tr; simpl.
  - by intros (-> & -> & _)%mret_returns.
  - intros (tensor & w1 & t1 & t2 & Htr & Hrest & ->)%bind_returns.
    apply bind_returns in Hrest as ([] & w1' & t1' & t3 & Hemit & Hrest & ->).
    apply bind_returns in Hrest as (slice & w2 & t2' & t4 & Hdnn & Hrest & ->).
    apply IH in Hrest. apply ext_returns in Hdnn as [_ ->].
    revert Hemit. unfold_M. intros [= <- <-].
    pose proof (transform_transform_log (KCol c) w) as Hlog.
    rewrite Htr in Hlog. simpl in Hlog.
    unfold transform_log in *. by rewrite !omap_app, Hlog, Hrest.
Qed.

Lemma weighted_sum_loop_log cols n wc trainable outs c2v w w' tr outs' c2v' :
  weighted_sum_loop cols n wc trainable outs c2v w = (w', tr, Ok (outs', c2v')) →
  transform_log tr = KCol <$> cols.
Proof.
  revert outs c2v w tr. induction cols as [|c cols IH]; intros outs c2v w tr; simpl.
  - by intros (-> & -> & _)%mret_returns.
  - intros (tensor & w1 & t1 & t2 & Htr & Hrest & ->)%bind_returns.
    apply bind_returns in Hrest as ([] & w1' & t1' & t3 & Hemit & Hrest & ->).
    apply bind_returns in Hrest as (pv & w2 & t2' & t4 & Hws & Hrest & ->).
    apply bind_returns in Hrest as ([] & w2' & t5 & t6 & Hlog' & Hrest & ->).
    rewrite log_variable_trace in Hlog'. injection Hlog' as <- <-.
    apply IH in Hrest. apply ext_returns in Hws as [_ ->].
    revert Hemit. unfold_M. intros [= <- <-].
    pose proof (transform_transform_log (KCol c) w) as Hlog.
    rewrite Htr in Hlog. simpl in Hlog.
    assert (transform_log (LogCreatedVariable <$> variables_of pv.2) = [])
      as Hvars by by induction (variables_of pv.2).
    unfold transform_log in *. by rewrite !omap_app, Hlog, Hvars, Hrest.
Qed.

Lemma dnn_calls_app (t1 t2 : list Event) :
  dnn_calls (t1 ++ t2) = dnn_calls t1 ++ dnn_calls t2.
Proof. apply omap_app. Qed.

Lemma weighted_sum_calls_app (t1 t2 : list Event) :
  weighted_sum_calls (t1 ++ t2) = weighted_sum_calls t1 ++ weighted_sum_calls t2.
Proof. apply omap_app. Qed.

Lemma transform_log_app (t1 t2 : list Event) :
  transform_log (t1 ++ t2) = transform_log t1 ++ transform_log t2.
Proof. apply omap_app. Qed.

Lemma transform_events k w w' tr r :
  transform k w = (w', tr, r) →
  transform_log tr = [k] ∧ dnn_calls tr = [] ∧ weighted_sum_calls tr = [].
Proof.
  intros Htr. pose proof (transform_transform_log k w) as Hlog.
  destruct (transform_dnn_calls _ _ _ _ _ Htr) as [Hd Hw].
  rewrite Htr in Hlog. by split_and!.
Qed.

(** The loop of the input-layer builder stops at the first column that
    cannot be transformed or rendered. *)
Lemma input_loop_stops before c after wc trainable acc w w1 slices :
  input_steps wc trainable before w w1 slices →
  (∀ w2 t e,
     transform (KCol c) w1 = (w2, t, Raise e) →
     ∃ tr, input_loop (before ++ c :: after) wc trainable acc w
             = (w2, tr, Raise e) ∧
           dnn_calls tr = before ∧
           transform_log tr = KCol <$> before ++ [c]) ∧
  (∀ w2 t tensor w3 e,
     transform (KCol c) w1 = (w2, t, Ok tensor) →
     to_dnn_input_layer c tensor wc trainable w2 = (w3, Raise e) →
     ∃ tr, input_loop (before ++ c :: after) wc trainable acc w
             = (w3, tr, Raise e) ∧
           dnn_calls tr = before ++ [c] ∧
           transform_log tr = KCol <$> before ++ [c]).
Proof.
  intros Hsteps. revert acc.
  induction Hsteps as [w|c0 cs w w1 t1 tensor0 w2 slice w3 slices Htr Hdnn _ IH];
    intros acc.
  - split.
    + intros w2 t e Htr.
      destruct (transform_events _ _ _ _ _ Htr) as (Hlog & Hcalls & _).
      exists t. split_and!; [|done..]. simpl. unfold_M. by rewrite Htr.
    + intros w2 t tensor w3 e Htr Hdnn.
      destruct (transform_events _ _ _ _ _ Htr) as (Hlog & Hcalls & _).
      exists (t ++ [CallToDnnInputLayer c]). split_and!.
      * simpl. unfold_M. by rewrite Htr, Hdnn, app_nil_r.
      * by rewrite dnn_calls_app, Hcalls.
      * by rewrite transform_log_app, Hlog.
  - destruct (transform_events _ _ _ _ _ Htr) as (Hlog & Hcalls & _).
    destruct (IH (acc ++ [slice])) as [IH1 IH2].
    assert (∀ w4 tr e,
              input_loop (cs ++ c :: after) wc trainable (acc ++ [slice]) w2
                = (w4, tr, Raise e) →
              input_loop ((c0 :: cs) ++ c :: after) wc trainable acc w
                = (w4, t1 ++ [CallToDnnInputLayer c0] ++ tr, Raise e)) as Hrun.
    { intros w4 tr e Hloop. simpl. unfold_M. by rewrite Htr, Hdnn, Hloop. }
    split.
    + intros w4 t e Hc. destruct (IH1 w4 t e Hc) as (tr & Hloop & Hd & Hl).
      exists (t1 ++ [CallToDnnInputLayer c0] ++ tr). split_and!.
      * by apply Hrun.
      * by rewrite !dnn_calls_app, Hcalls, Hd.
      * by rewrite !transform_log_app, Hlog, Hl.
    + intros w4 t tensor w5 e Hc Hd5.
      destruct (IH2 w4 t tensor w5 e Hc Hd5) as (tr & Hloop & Hd & Hl).
      exists (t1 ++ [CallToDnnInputLayer c0] ++ tr). split_and!.
      * by apply Hrun.
      * by rewrite !dnn_calls_app, Hcalls, Hd.
      * by rewrite !transform_log_app, Hlog, Hl.
Qed.

Lemma created_variables_no_calls (vs : list Var) :
  weighted_sum_calls (LogCreatedVariable <$> vs) = [] ∧
  transform_log (LogCreatedVariable <$> vs) = [].
Proof. by induction vs. Qed.

(** So does the loop of the weighted-sum builder. *)
Lemma weighted_sum_loop_stops before c after n wc trainable outs c2v w w1 pvs :
  weighted_sum_steps n wc trainable before w w1 pvs →
  (∀ w2 t e,
     transform (KCol c) w1 = (w2, t, Raise e) →
     ∃ tr, weighted_sum_loop (before ++ c :: after) n wc trainable outs c2v w
             = (w2, tr, Raise e) ∧
           weighted_sum_calls tr = before ∧
           transform_log tr = KCol <$> before ++ [c]) ∧
  (∀ w2 t tensor w3 e,
     transform (KCol c) w1 = (w2, t, Ok tensor) →
     to_weighted_sum c tensor n wc trainable w2 = (w3, Raise e) →
     ∃ tr, weighted_sum_loop (before ++ c :: after) n wc trainable outs c2v w
             = (w3, tr, Raise e) ∧
           weighted_sum_calls tr = before ++ [c] ∧
           transform_log tr = KCol <$> before ++ [c]).
Proof.
  intros Hsteps. revert outs c2v.
  induction Hsteps as [w|c0 cs w w1 t1 tensor0 w2 pv w3 pvs Htr Hws _ IH];
    intros outs c2v.
  - split.
    + intros w2 t e Htr.
      destruct (transform_events _ _ _ _ _ Htr) as (Hlog & _ & Hcalls).
      exists t. split_and!; [|done..]. simpl. unfold_M. by rewrite Htr.
    + intros w2 t tensor w3 e Htr Hws.
      destruct (transform_events _ _ _ _ _ Htr) as (Hlog & _ & Hcalls).
      exists (t ++ [CallToWeightedSum c]). split_and!.
      * simpl. unfold_M. by rewrite Htr, Hws, app_nil_r.
      * by rewrite weighted_sum_calls_app, Hcalls.
      * by rewrite transform_log_app, Hlog.
  - destruct (transform_events _ _ _ _ _ Htr) as (Hlog & _ & Hcalls).
    destruct (created_variables_no_calls (variables_of pv.2)) as [Hv1 Hv2].
    destruct (IH (outs ++ [pv.1]) (<[c0 := pv.2]> c2v)) as [IH1 IH2].
    assert (∀ w4 tr e,
              weighted_sum_loop (cs ++ c :: after) n wc trainable
                (outs ++ [pv.1]) (<[c0 := pv.2]> c2v) w2 = (w4, tr, Raise e) →
              weighted_sum_loop ((c0 :: cs) ++ c :: after) n wc trainable
                outs c2v w
                = (w4, t1 ++ [CallToWeightedSum c0]
                       ++ (LogCreatedVariable <$> variables_of pv.2) ++ tr,
                   Raise e)) as Hrun.
    { intros w4 tr e Hloop. simpl. unfold_M.
      by rewrite Htr, Hws, log_variable_trace, Hloop. }
    split.
    + intros w4 t e Hc. destruct (IH1 w4 t e Hc) as (tr & Hloop & Hd & Hl).
      eexists. split_and!.
      * by apply Hrun.
      * by rewrite !weighted_sum_calls_app, Hcalls, Hv1, Hd.
      * by rewrite !transform_log_app, Hlog, Hv2, Hl.
    + intros w4 t tensor w5 e Hc Hd5.
      destruct (IH2 w4 t tensor w5 e Hc Hd5) as (tr & Hloop & Hd & Hl).
      eexists. split_and!.
      * by apply Hrun.
      * by rewrite !weighted_sum_calls_app, Hcalls, Hv1, Hd.
      * by rewrite !transform_log_app, Hlog, Hv2, Hl.
Qed.

(** X3: whether a builder returns or raises, it asks the columns for
    their layer contribution in ascending key order, each column at most
    once: the columns called are a prefix of the key-sorted set of
    columns.  When validation fails, the builder raises with the world
    untouched and no event at all.  A builder that returns has called
    every column.  And a builder stops at the first failure: when the
    columns before [c] can be transformed and rendered and [c] cannot,
    the exception is the one of [c] -- of its [transform], in which case
    the columns called are those before [c], or of its rendering, in
    which case [c] is the last column called -- and no column after [c]
    is transformed or called. *)
Theorem builders_call_prefix_of_sorted_columns
    feature_columns num_outputs weight_collections name trainable w :
  let columns := sorted_by_key (set_of feature_columns) in
  let collections := _add_variable_collection weight_collections in
  NoDup columns ∧ StronglySorted key_le columns ∧
  (∀ c, c ∈ columns ↔ c ∈ feature_columns) ∧
  dnn_calls (input_from_feature_columns feature_columns weight_collections
               name trainable w).1.2 `prefix_of` columns ∧
  weighted_sum_calls
    (weighted_sum_from_feature_columns feature_columns num_outputs
       weight_collections name trainable w).1.2 `prefix_of` columns ∧
  (¬ NoDup (key <$> feature_columns) →
   ∃ e,
     input_from_feature_columns feature_columns weight_collections name
       trainable w = (w, [], Raise e) ∧
     weighted_sum_from_feature_columns feature_columns num_outputs
       weight_collections name trainable w = (w, [], Raise e)) ∧
  (∀ w' tr out,
     input_from_feature_columns feature_columns weight_collections name
       trainable w = (w', tr, Ok out) →
     dnn_calls tr = columns ∧ transform_log tr = KCol <$> columns) ∧
  (∀ w' tr out,
     weighted_sum_from_feature_columns feature_columns num_outputs
       weight_collections name trainable w = (w', tr, Ok out) →
     weighted_sum_calls tr = columns ∧ transform_log tr = KCol <$> columns) ∧
  (NoDup (key <$> feature_columns) →
   ∀ before c after w1 slices,
     columns = before ++ c :: after →
     input_steps collections trainable before w w1 slices →
     (∀ w2 t e,
        transform (KCol c) w1 = (w2, t, Raise e) →
        ∃ tr,
          input_from_feature_columns feature_columns weight_collections name
            trainable w = (w2, tr, Raise e) ∧
          dnn_calls tr = before ∧
          transform_log tr = KCol <$> before ++ [c]) ∧
     (∀ w2 t tensor w3 e,
        transform (KCol c) w1 = (w2, t, Ok tensor) →
        to_dnn_input_layer c tensor collections trainable w2
          = (w3, Raise e) →
        ∃ tr,
          input_from_feature_columns feature_columns weight_collections name
            trainable w = (w3, tr, Raise e) ∧
          dnn_calls tr = before ++ [c] ∧
          transform_log tr = KCol <$> before ++ [c])) ∧
  (NoDup (key <$> feature_columns) →
   ∀ before c after w1 contributions,
     columns = before ++ c :: after →
     weighted_sum_steps num_outputs weight_collections trainable
       before w w1 contributions →
     (∀ w2 t e,
        transform (KCol c) w1 = (w2, t, Raise e) →
        ∃ tr,
          weighted_sum_from_feature_columns feature_columns num_outputs
            weight_collections name trainable w = (w2, tr, Raise e) ∧
          weighted_sum_calls tr = before ∧
          transform_log tr = KCol <$> before ++ [c]) ∧
     (∀ w2 t tensor w3 e,
        transform (KCol c) w1 = (w2, t, Ok tensor) →
        to_weighted_sum c tensor num_outputs weight_collections trainable w2
          = (w3, Raise e) →
        ∃ tr,
          weighted_sum_from_feature_columns feature_columns num_outputs
            weight_collections name trainable w = (w3, tr, Raise e) ∧
          weighted_sum_calls tr = before ++ [c] ∧
          transform_log tr = KCol <$> before ++ [c])).
Proof.
  intros columns collections. split_and!.
  - unfold columns. rewrite sorted_by_key_perm. unfold set_of.
    apply NoDup_elements.
  - apply sorted_by_key_sorted.
  - intros c. unfold columns. rewrite sorted_by_key_perm. unfold set_of.
    by rewrite elem_of_elements, elem_of_list_to_set.
  - unfold input_from_feature_columns, check_feature_columns. unfold_M.
    destruct (check_loop ∅ feature_columns) as [[]|e]; [|apply prefix_nil].
    pose proof (input_loop_calls_prefix columns
                  (_add_variable_collection weight_collections) trainable [] w)
      as Hloop.
    unfold _add_variable_collection, columns in *.
    destruct (input_loop _ _ _ _ w) as [[w1 t1] [outs|e]]; simpl in *; [|done].
    unfold dnn_calls in *. by rewrite omap_app, app_nil_r.
  - unfold weighted_sum_from_feature_columns, check_feature_columns. unfold_M.
    destruct (check_loop ∅ feature_columns) as [[]|e]; [|apply prefix_nil].
    pose proof (weighted_sum_loop_calls_prefix columns num_outputs
                  weight_collections trainable [] ∅ w) as Hloop.
    unfold columns in *.
    destruct (weighted_sum_loop _ _ _ _ _ _ w) as [[w1 t1] [[outs c2v]|e]];
      simpl in *; [|done].
    destruct (add_n outs) as [total|e]; simpl.
    + destruct (bias_add total _) as [p|e]; simpl;
        unfold weighted_sum_calls in *; rewrite omap_app; simpl;
        by rewrite app_nil_r.
    + unfold weighted_sum_calls in *. by rewrite omap_app, app_nil_r.
  - intros Hdup.
    destruct (check_loop_duplicate feature_columns Hdup)
      as (l1 & f & l2 & _ & _ & _ & Hraise).
    eexists. split.
    + unfold input_from_feature_columns. apply bind_raises_first.
      unfold check_feature_columns, pure_result. by rewrite Hraise.
    + unfold weighted_sum_from_feature_columns. apply bind_raises_first.
      unfold check_feature_columns, pure_result. by rewrite Hraise.
  - intros w' tr out. unfold input_from_feature_columns.
    intros ([] & w0 & t0 & t0' & Hcheck & Hrest & ->)%bind_returns.
    apply pure_result_returns in Hcheck as (-> & -> & _).
    apply bind_returns in Hrest as (outs & w1 & t1 & t2 & Hloop & Hcat & ->).
    apply pure_result_returns in Hcat as (-> & -> & _).
    pose proof (input_loop_log _ _ _ _ _ _ _ _ Hloop) as Hlog.
    apply input_loop_returns in Hloop as (slices & _ & _ & Hcalls).
    simpl. by rewrite app_nil_r.
  - intros w' tr [[predictions c2v] bias].
    unfold weighted_sum_from_feature_columns.
    intros ([] & w0 & t0 & t0' & Hcheck & Hrest & ->)%bind_returns.
    apply bind_returns in Hrest
      as ([outs c2v'] & w1 & t1 & t2 & Hloop & Hrest & ->).
    apply bind_returns in Hrest as (pnb & w2 & t3 & t4 & Hadd & Hrest & ->).
    apply bind_returns in Hrest as (bias' & w3 & t5 & t6 & Hvar & Hrest & ->).
    apply bind_returns in Hrest as ([] & w4 & t7 & t8 & Hlog & Hrest & ->).
    apply bind_returns in Hrest as (pred & w5 & t9 & t10 & Hbias & Hret & ->).
    apply pure_result_returns in Hcheck as (-> & -> & _).
    apply pure_result_returns in Hadd as (-> & -> & _).
    apply ext_returns in Hvar as (_ & ->).
    rewrite log_variable_trace in Hlog. injection Hlog as <- <-.
    apply pure_result_returns in Hbias as (-> & -> & _).
    apply mret_returns in Hret as (-> & -> & _).
    pose proof (weighted_sum_loop_log _ _ _ _ _ _ _ _ _ _ _ Hloop) as Hlog.
    apply weighted_sum_loop_returns in Hloop as (pvs & _ & _ & Hcalls & _).
    unfold weighted_sum_calls, transform_log in *.
    rewrite !omap_app, Hcalls, Hlog. simpl. by rewrite !app_nil_r.
  - intros Hnd before c after w1 slices Hcols Hsteps.
    assert (sorted_by_key feature_columns = before ++ c :: after) as Hcols'.
    { rewrite <-Hcols. unfold columns. symmetry. by apply sorted_set_of. }
    destruct (input_loop_stops before c after collections trainable [] w w1
                slices Hsteps) as [H1 H2].
    split.
    + intros w2 t e Htr. destruct (H1 w2 t e Htr) as (tr & Hloop & Hd & Hl).
      exists tr. split_and!; [|done..].
      rewrite (input_from_feature_columns_unfold feature_columns) by done.
      apply bind_raises_first. by rewrite Hcols'.
    + intros w2 t tensor w3 e Htr Hdnn.
      destruct (H2 w2 t tensor w3 e Htr Hdnn) as (tr & Hloop & Hd & Hl).
      exists tr. split_and!; [|done..].
      rewrite (input_from_feature_columns_unfold feature_columns) by done.
      apply bind_raises_first. by rewrite Hcols'.
  - intros Hnd before c after w1 pvs Hcols Hsteps.
    assert (sorted_by_key feature_columns = before ++ c :: after) as Hcols'.
    { rewrite <-Hcols. unfold columns. symmetry. by apply sorted_set_of. }
    destruct (weighted_sum_loop_stops before c after num_outputs
                weight_collections trainable [] ∅ w w1 pvs Hsteps) as [H1 H2].
    split.
    + intros w2 t e Htr. destruct (H1 w2 t e Htr) as (tr & Hloop & Hd & Hl).
      exists tr. split_and!; [|done..].
      rewrite weighted_sum_from_feature_columns_unfold by done.
      apply bind_raises_first. by rewrite Hcols'.
    + intros w2 t tensor w3 e Htr Hws.
      destruct (H2 w2 t tensor w3 e Htr Hws) as (tr & Hloop & Hd & Hl).
      exists tr. split_and!; [|done..].
      rewrite weighted_sum_from_feature_columns_unfold by done.
      apply bind_raises_first. by rewrite Hcols'.
Qed.

(** ** The variables the weighted-sum builder logs *)

Lemma logged_variables_log (vs : list Var) :
  logged_variables (LogCreatedVariable <$> vs) = vs.
Proof. induction vs as [|v vs IH]; simpl; [done|]. by f_equal. Qed.

Lemma transform_logged_variables k w : logged_variables (transform k w).1.2 = [].
Proof.
  by destruct (transform_trace k w) as [->|(c & -> & ->)].
Qed.

Lemma weighted_sum_loop_logs cols n wc trainable outs c2v w w' tr outs' c2v' :
  weighted_sum_loop cols n wc trainable outs c2v w = (w', tr, Ok (outs', c2v')) →
  ∃ ws : list Weights,
    logged_variables tr = ws ≫= variables_of ∧
    (∀ c, c ∉ cols → c2v' !! c = c2v !! c) ∧
    (NoDup cols → Forall2 (λ c wt, c2v' !! c = Some wt) cols ws).
Proof.
  revert outs c2v w tr. induction cols as [|c cols IH]; intros outs c2v w tr; simpl.
  - intros (-> & -> & [= <- <-])%mret_returns. exists [].
    split_and!; done.
  - intros (tensor & w1 & t1 & t2 & Htr & Hrest & ->)%bind_returns.
    apply bind_returns in Hrest as ([] & w1' & t1' & t3 & Hemit & Hrest & ->).
    apply bind_returns in Hrest as (pv & w2 & t2' & t4 & Hws & Hrest & ->).
    apply bind_returns in Hrest as ([] & w2' & t5 & t6 & Hlog & Hrest & ->).
    rewrite log_variable_trace in Hlog. injection Hlog as <- <-.
    apply IH in Hrest as (ws & Hlogs & Hother & Hdup).
    apply ext_returns in Hws as [_ ->].
    pose proof (transform_logged_variables (KCol c) w) as Ht1.
    rewrite Htr in Ht1. simpl in Ht1.
    assert (logged_variables t1' = []) as Ht1'.
    { revert Hemit. unfold_M. by intros [= _ <-]. }
    exists (pv.2 :: ws). split_and!.
    + unfold logged_variables in *. rewrite !omap_app, Ht1, Ht1', Hlogs. simpl.
      f_equal. apply logged_variables_log.
    + intros c' [Hne Hc']%not_elem_of_cons.
      by rewrite (Hother c' Hc'), lookup_insert_ne.
    + intros [Hc Hnd]%NoDup_cons. constructor; [|by apply Hdup].
      by rewrite (Hother c Hc), lookup_insert_eq.
Qed.

(** X4: when [weighted_sum_from_feature_columns] returns, the variables it
    has logged as created are exactly the variables of the returned
    dictionary, column by column in ascending key order (a list of
    variables entry by entry), followed by the bias variable. *)
Theorem weighted_sum_logs_every_variable
    feature_columns num_outputs weight_collections name trainable
    w w' tr predictions column_to_variable bias :
  weighted_sum_from_feature_columns feature_columns num_outputs
    weight_collections name trainable w
    = (w', tr, Ok (predictions, column_to_variable, bias)) →
  ∃ ws : list Weights,
    Forall2 (λ c wt, column_to_variable !! c = Some wt)
            (sorted_by_key (set_of feature_columns)) ws ∧
    logged_variables tr = (ws ≫= variables_of) ++ [bias].
Proof.
  unfold weighted_sum_from_feature_columns.
  intros ([] & w0 & t0 & t0' & Hcheck & Hrest & ->)%bind_returns.
  apply bind_returns in Hrest as ([outs c2v] & w1 & t1 & t2 & Hloop & Hrest & ->).
  apply bind_returns in Hrest as (pnb & w2 & t3 & t4 & Hadd & Hrest & ->).
  apply bind_returns in Hrest as (bias' & w3 & t5 & t6 & Hvar & Hrest & ->).
  apply bind_returns in Hrest as ([] & w4 & t7 & t8 & Hlog & Hrest & ->).
  apply bind_returns in Hrest as (pred & w5 & t9 & t10 & Hbias & Hret & ->).
  apply pure_result_returns in Hcheck as (-> & -> & _).
  apply pure_result_returns in Hadd as (-> & -> & _).
  apply ext_returns in Hvar as (_ & ->).
  rewrite log_variable_trace in Hlog. injection Hlog as <- <-.
  apply pure_result_returns in Hbias as (-> & -> & _).
  apply mret_returns in Hret as (-> & -> & [= <- <- <-]).
  apply weighted_sum_loop_logs in Hloop as (ws & Hlogs & _ & Hdup).
  exists ws. split.
  - apply Hdup. rewrite sorted_by_key_perm. unfold set_of. apply NoDup_elements.
  - unfold logged_variables in *. rewrite !omap_app, Hlogs. simpl.
    done.
Qed.

(** * Properties of the example parser adapter *)

Context {Serialized FeatureSpec : Type}.
Context `{!ExampleParser (Column:=Column) (Tensor:=Tensor) (Elt:=Elt)
            (Serialized:=Serialized) (FeatureSpec:=FeatureSpec)}.

Lemma transform_loop_log_prefix cols w :
  transform_log (transform_loop cols w).1.2 `prefix_of` KCol <$> cols.
Proof.
  revert w. induction cols as [|c cols IH]; intros w; simpl.
  - apply prefix_nil.
  - unfold_M. pose proof (transform_transform_log (KCol c) w) as Hlog.
    destruct (transform (KCol c) w) as [[w1 t1] [t|e]]; simpl in *.
    + specialize (IH w1). destruct (transform_loop cols w1) as [[w2 t2] r].
      simpl in *. unfold transform_log in *. rewrite omap_app, Hlog.
      by apply prefix_cons.
    + rewrite Hlog. apply prefix_cons, prefix_nil.
Qed.

Lemma transform_loop_returns cols w w' tr :
  transform_loop cols w = (w', tr, Ok ()) →
  transform_log tr = KCol <$> cols ∧
  (insert_adds_only →
   columns_to_tensors w ⊆ columns_to_tensors w' ∧
   ∀ c, c ∈ cols → is_Some (columns_to_tensors w' !! KCol c)).
Proof.
  revert w tr. induction cols as [|c cols IH]; intros w tr; simpl.
  - intros (-> & -> & _)%mret_returns. split; [done|]. intros _.
    split; [done|]. by intros c ?%elem_of_nil.
  - intros (t & w1 & t1 & t2 & Htr & Hrest & ->)%bind_returns.
    apply IH in Hrest as [Hlog Hrest].
    pose proof (transform_transform_log (KCol c) w) as Hlog1.
    pose proof (transform_preserves (KCol c) w) as Hsub1.
    rewrite Htr in Hlog1, Hsub1. simpl in *. split.
    + unfold transform_log in *. by rewrite omap_app, Hlog1, Hlog.
    + intros Hadd. destruct (Hrest Hadd) as [Hsub Hall].
      split; [by etrans; [apply Hsub1|]|].
      intros c' [->|Hc']%elem_of_cons; [|by apply Hall].
      apply transform_returns in Htr. exists t. by eapply lookup_weaken.
Qed.

Local Abbreviation Iterable := (Iterable (Column:=Column)).

Lemma parse_feature_columns_from_examples_unfold
    serialized (feature_columns : Iterable) name example_names :
  parse_feature_columns_from_examples serialized feature_columns name
    example_names =
  (check_feature_columns (first_pass feature_columns);;
   features ← pure_result
                (create_feature_spec_for_parsing (later_pass feature_columns));
   parsed ← ext (parse_example serialized features name example_names);
   new_Transformer parsed;;
   transform_loop (sorted_by_key (set_of (later_pass feature_columns)));;
   gets columns_to_tensors).
Proof. by destruct feature_columns. Qed.

(** X6: [parse_feature_columns_from_examples] validates before it
    parses: when the iterable, a collection or a one-shot iterator, gives
    two columns of equal key, it raises the duplicate-key [ValueError] and
    nothing else happens -- no feature spec is asked for, nothing is
    parsed or transformed and the world is as it was. *)
Theorem parse_rejects_duplicate_keys
    serialized (feature_columns : Iterable) name example_names i j f g w :
  i < j →
  first_pass feature_columns !! i = Some f →
  first_pass feature_columns !! j = Some g →
  key f = key g →
  ∃ h, h ∈ first_pass feature_columns ∧
    parse_feature_columns_from_examples serialized feature_columns name
      example_names w
    = (w, [], Raise (ValueError
                 ("Duplicate feature column key found: " +:+ key h))).
Proof.
  intros Hij Hi Hj Hfg.
  destruct (check_loop_duplicate (first_pass feature_columns))
    as (l1 & h & l2 & Heq & _ & _ & Hraise).
  { intros Hnd. assert (i = j); [|lia].
    apply (proj1 (NoDup_alt _) Hnd i j (key f)); rewrite list_lookup_fmap.
    - by rewrite Hi.
    - by rewrite Hj, Hfg. }
  exists h. split.
  - rewrite Heq. apply elem_of_app. right. by left.
  - rewrite parse_feature_columns_from_examples_unfold. apply bind_raises_first.
    unfold check_feature_columns, pure_result. by rewrite Hraise.
Qed.

(** X7: when [parse_feature_columns_from_examples] returns, the keys of
    the columns were distinct and the dictionary returned is the one the
    parser produced, as the transformations left it.  Given a collection,
    the schema was derived from its columns, every column was transformed
    once, in ascending key order, and, with columns that only add
    entries, the dictionary still holds every parsed raw tensor and has
    an entry for every requested column.  Given a one-shot iterator, the
    validation has used it up: the schema was derived from no column,
    nothing was transformed, and the dictionary is the parsed one as the
    parser returned it. *)
Theorem parse_returns_transformed_dictionary
    serialized (feature_columns : Iterable) name example_names w w' tr d :
  parse_feature_columns_from_examples serialized feature_columns name
    example_names w = (w', tr, Ok d) →
  NoDup (key <$> first_pass feature_columns) ∧
  d = columns_to_tensors w' ∧
  match feature_columns with
  | Collection items =>
      ∃ features w1 parsed,
        create_feature_spec_for_parsing items = Ok features ∧
        parse_example serialized features name example_names w
          = (w1, Ok parsed) ∧
        transform_log tr = KCol <$> sorted_by_key items ∧
        (insert_adds_only →
         parsed ⊆ d ∧ ∀ c, c ∈ items → is_Some (d !! KCol c))
  | Iterator _ =>
      ∃ features w1,
        create_feature_spec_for_parsing [] = Ok features ∧
        parse_example serialized features name example_names w = (w1, Ok d) ∧
        w' = mkWorld d (collections w1) (device w1) ∧
        tr = []
  end.
Proof.
  rewrite parse_feature_columns_from_examples_unfold.
  intros ([] & w0 & t0 & t0' & Hcheck & Hrest & ->)%bind_returns.
  apply bind_returns in Hrest as (features & w1 & t1 & t2 & Hspec & Hrest & ->).
  apply bind_returns in Hrest as (parsed & w2 & t3 & t4 & Hparse & Hrest & ->).
  apply bind_returns in Hrest as ([] & w3 & t5 & t6 & Hnew & Hrest & ->).
  apply bind_returns in Hrest as ([] & w4 & t7 & t8 & Hloop & Hret & ->).
  apply pure_result_returns in Hcheck as (-> & -> & Hcheck).
  apply check_loop_returns_unique in Hcheck.
  apply pure_result_returns in Hspec as (-> & -> & Hspec).
  apply ext_returns in Hparse as (Hparse & ->).
  revert Hnew Hret. unfold new_Transformer. unfold_M.
  intros [= <- <-] [= <- <- <-].
  split_and!; [done|done|].
  destruct feature_columns as [items|remaining];
    unfold later_pass, first_pass in *; cbn [iterate fst snd] in *.
  - rewrite (sorted_set_of items items) in Hloop by done.
    apply transform_loop_returns in Hloop as [Hlog Hgrow]. simpl in *.
    exists features, w2, parsed. split_and!; [done|done|by rewrite app_nil_r|].
    intros Hadd. destruct (Hgrow Hadd) as [Hsub Hall]. split; [done|].
    intros c Hc. apply Hall. by rewrite sorted_by_key_perm.
  - revert Hloop. unfold set_of. rewrite list_to_set_nil, elements_empty.
    simpl. unfold_M. intros [= <- <-]. by exists features, w2.
Qed.

(** X8: whatever the outcome of [parse_feature_columns_from_examples],
    the columns it has started to transform are a prefix of the key-sorted
    columns of a collection, and none of a one-shot iterator; and an
    exception of the parser itself reaches the caller before any column
    is transformed. *)
Theorem parse_transforms_prefix_of_sorted_columns
    serialized (feature_columns : Iterable) name example_names w :
  match feature_columns with
  | Collection items =>
      transform_log
        (parse_feature_columns_from_examples serialized feature_columns name
           example_names w).1.2
      `prefix_of` KCol <$> sorted_by_key (set_of items)
  | Iterator _ =>
      transform_log
        (parse_feature_columns_from_examples serialized feature_columns name
           example_names w).1.2 = []
  end ∧
  (∀ features w1 e,
     NoDup (key <$> first_pass feature_columns) →
     create_feature_spec_for_parsing (later_pass feature_columns)
       = Ok features →
     parse_example serialized features name example_names w
       = (w1, Raise e) →
     parse_feature_columns_from_examples serialized feature_columns name
       example_names w = (w1, [], Raise e)).
Proof.
  rewrite parse_feature_columns_from_examples_unfold. split.
  - assert (transform_log
              ((check_feature_columns (first_pass feature_columns);;
                features ← pure_result
                  (create_feature_spec_for_parsing (later_pass feature_columns));
                parsed ← ext (parse_example serialized features name
                                example_names);
                new_Transformer parsed;;
                transform_loop
                  (sorted_by_key (set_of (later_pass feature_columns)));;
                gets columns_to_tensors) w).1.2
            `prefix_of`
            KCol <$> sorted_by_key (set_of (later_pass feature_columns)))
      as Hprefix.
    { unfold check_feature_columns. unfold_M.
      destruct (check_loop ∅ (first_pass feature_columns)) as [[]|e];
        [|apply prefix_nil].
      destruct (create_feature_spec_for_parsing (later_pass feature_columns))
        as [features|e]; [|apply prefix_nil].
      destruct (parse_example serialized features name example_names w)
        as [w1 [parsed|e]]; [|apply prefix_nil].
      unfold new_Transformer.
      pose proof (transform_loop_log_prefix
                    (sorted_by_key (set_of (later_pass feature_columns)))
                    (mkWorld parsed (collections w1) (device w1))) as Hloop.
      destruct (transform_loop _ _) as [[w2 t2] [[]|e]]; simpl in *; [|done].
      unfold transform_log in *. by rewrite omap_app, app_nil_r. }
    destruct feature_columns as [items|remaining]; [exact Hprefix|].
    revert Hprefix. unfold later_pass, set_of. cbn [iterate fst snd].
    rewrite list_to_set_nil, elements_empty. simpl.
    by intros ->%prefix_nil_inv.
  - intros features w1 e Hnd Hspec Hparse. unfold check_feature_columns.
    unfold_M. by rewrite (check_loop_unique _ Hnd), Hspec, Hparse.
Qed.

End Properties.

(** * Properties of the inference *)

Definition int_times_none : Exn :=
  TypeError "unsupported operand type(s) for *=: 'int' and 'NoneType'".

Definition unknown_rank : Exn :=
  ValueError "as_list() is not defined on an unknown TensorShape.".

(** The loop multiplies the sizes it meets and stops at the first
    unknown one. *)
Lemma dimension_from_spec (shape : list (option nat)) k n a :
  k + n ≤ length shape →
  dimension_from shape (seq k n) a =
    match mapM id (take n (drop k shape)) with
    | Some sizes => Ok (a * product_of sizes)
    | None => Raise int_times_none
    end.
Proof.
  revert a k. induction n as [|n IH]; intros a k Hk; simpl.
  - f_equal. lia.
  - destruct (lookup_lt_is_Some_2 shape k) as [x Hx]; [lia|].
    rewrite Hx, (drop_S _ _ _ Hx). simpl. destruct x as [m|]; simpl; [|done].
    rewrite IH by lia.
    destruct (mapM id (take n (drop (S k) shape))) as [sizes|]; simpl; [|done].
    f_equal. lia.
Qed.

Lemma dimension_loop_spec (shape : list (option nat)) :
  dimension_loop shape =
    match mapM id (drop 1 shape) with
    | Some sizes => Ok (product_of sizes)
    | None => Raise int_times_none
    end.
Proof.
  unfold dimension_loop. destruct shape as [|batch dims]; [done|].
  rewrite dimension_from_spec by (simpl; lia).
  simpl. rewrite Nat.sub_0_r, drop_0, take_ge by done.
  destruct (mapM id dims); [|done]. f_equal. lia.
Qed.

Lemma mapM_id_Some (sizes : list nat) : mapM id (Some <$> sizes) = Some sizes.
Proof.
  induction sizes as [|n sizes IH]; [done|].
  change (mapM id (Some <$> n :: sizes))
    with (y ← Some n; k ← mapM id (Some <$> sizes); Some (y :: k)).
  by rewrite IH.
Qed.

Lemma mapM_id_inv (dims : list (option nat)) sizes :
  mapM id dims = Some sizes → dims = Some <$> sizes.
Proof.
  revert sizes. induction dims as [|[n|] dims IH]; intros sizes; simpl.
  - by intros [= <-].
  - destruct (mapM id dims) as [l|]; simpl; [|done].
    intros [= <-]. simpl. f_equal. by apply IH.
  - done.
Qed.

Lemma infer_column_dense name tensor :
  inferable tensor = true →
  _infer_real_valued_column_for_tensor name tensor = Ok (column_of name tensor).
Proof.
  unfold inferable. destruct tensor as [dt [dims|]|dt]; simpl; try done.
  - intros [-> Hsizes]%andb_true_iff. simpl. rewrite dimension_loop_spec.
    by destruct (mapM id (drop 1 dims)).
  - by rewrite andb_false_r.
Qed.

Lemma infer_column_rejects name tensor :
  dense_numeric tensor = false →
  _infer_real_valued_column_for_tensor name tensor =
    Raise (ValueErrorArgs
             match tensor with
             | SparseTensor _ => sparse_not_supported
             | DenseTensor _ _ => type_not_supported
             end name tensor).
Proof.
  destruct tensor as [dt shape|dt]; simpl; [|done]. by intros ->.
Qed.

Lemma infer_column_unknown name tensor :
  dense_numeric tensor = true → inferable tensor = false →
  _infer_real_valued_column_for_tensor name tensor =
    Raise match tensor with
          | DenseTensor _ None => unknown_rank
          | _ => int_times_none
          end.
Proof.
  unfold inferable. destruct tensor as [dt [dims|]|dt]; simpl; try done.
  - intros ->. simpl. rewrite dimension_loop_spec.
    by destruct (mapM id (drop 1 dims)).
  - by intros ->.
Qed.

Lemma infer_column_raises name tensor :
  inferable tensor = false →
  ∃ e, _infer_real_valued_column_for_tensor name tensor = Raise e.
Proof.
  intros Hno. destruct (dense_numeric tensor) eqn:Hnum.
  - rewrite (infer_column_unknown _ _ Hnum Hno). by eexists.
  - rewrite (infer_column_rejects _ _ Hnum). by eexists.
Qed.

Lemma infer_loop_app good items acc :
  Forall (λ item, inferable item.2 = true) good →
  infer_loop (good ++ items) acc
  = infer_loop items (acc ++ ((λ item, column_of item.1 item.2) <$> good)).
Proof.
  intros Hgood. revert acc.
  induction Hgood as [|[key value] good Hv _ IH]; intros acc; simpl.
  - by rewrite app_nil_r.
  - rewrite (infer_column_dense _ _ Hv). simpl. rewrite IH.
    by rewrite <-app_assoc.
Qed.

Lemma infer_loop_all items acc :
  Forall (λ item, inferable item.2 = true) items →
  infer_loop items acc = Ok (acc ++ ((λ item, column_of item.1 item.2) <$> items)).
Proof.
  intros Hall. rewrite <-(app_nil_r items) at 1.
  by rewrite (infer_loop_app _ _ _ Hall).
Qed.

Lemma infer_loop_some items acc :
  Exists (λ item, inferable item.2 = false) items →
  ∃ e, infer_loop items acc = Raise e.
Proof.
  intros Hex. revert acc.
  induction items as [|[key value] items IH]; intros acc; simpl.
  - by apply Exists_nil in Hex.
  - destruct (inferable value) eqn:Hv.
    + rewrite (infer_column_dense _ _ Hv). simpl. apply IH.
      apply Exists_cons in Hex as [Hex|Hex]; [|done]. simpl in Hex. congruence.
    + destruct (infer_column_raises key value Hv) as [e ->]. by exists e.
Qed.

(** C8 (as amended): [infer_real_valued_columns] raises a [ValueError]
    (built from the text, the name and the tensor) for a tensor that is
    sparse or whose element type is neither integer nor floating; for a
    dense numeric tensor whose shape has a known rank and known sizes on
    the axes after the first, it yields the real-valued column named
    after it (the empty name for a single tensor) whose dimension is the
    product of those sizes and whose dtype is the tensor's: a shape
    [batch, 3, 4], the batch size known or not, gives dimension 12.  A
    dense numeric tensor with an axis of unknown size after the first
    raises a [TypeError], one of unknown rank the [ValueError] of
    [as_list].  A mapping gives the columns of its values in its order
    when each value yields one, and raises otherwise; the exception is
    the [ValueError] for the first sparse or non-numeric value when the
    values before it yield columns. *)
Theorem infer_real_valued_columns_spec :
  (∀ tensor,
     (dense_numeric tensor = false →
        ∃ text, infer_real_valued_columns (OneTensor tensor)
                = Raise (ValueErrorArgs text "" tensor)) ∧
     (inferable tensor = true →
        infer_real_valued_columns (OneTensor tensor)
        = Ok [column_of "" tensor]) ∧
     (dense_numeric tensor = true → inferable tensor = false →
        infer_real_valued_columns (OneTensor tensor)
        = Raise match tensor with
                | DenseTensor _ None => unknown_rank
                | _ => int_times_none
                end)) ∧
  (∀ items,
     (Forall (λ item, inferable item.2 = true) items →
        infer_real_valued_columns (TensorDict items)
        = Ok ((λ item, column_of item.1 item.2) <$> items)) ∧
     (Exists (λ item, inferable item.2 = false) items →
        ∃ e, infer_real_valued_columns (TensorDict items) = Raise e) ∧
     (∀ good key bad rest,
        items = good ++ (key, bad) :: rest →
        Forall (λ item, inferable item.2 = true) good →
        dense_numeric bad = false →
        ∃ text, infer_real_valued_columns (TensorDict items)
                = Raise (ValueErrorArgs text key bad))) ∧
  (∀ dt dims,
     inferable (DenseTensor dt (Some dims)) = true ↔
     (is_integer dt || is_floating dt = true ∧
      ∃ sizes, drop 1 dims = Some <$> sizes)) ∧
  (∀ name dt dims sizes,
     drop 1 dims = Some <$> sizes →
     column_of name (DenseTensor dt (Some dims))
     = real_valued_column name (product_of sizes) dt) ∧
  (∀ batch dt,
     is_integer dt || is_floating dt = true →
     infer_real_valued_columns
       (OneTensor (DenseTensor dt (Some [batch; Some 3; Some 4])))
     = Ok [real_valued_column "" 12 dt]).
Proof.
  split_and!.
  - intros tensor. split_and!; intros Ht; simpl.
    + rewrite (infer_column_rejects "" tensor Ht). by eexists.
    + by rewrite (infer_column_dense _ _ Ht).
    + intros Hno. by rewrite (infer_column_unknown _ _ Ht Hno).
  - intros items. split_and!.
    + intros Hitems. simpl. by rewrite infer_loop_all.
    + intros Hitems. by apply infer_loop_some.
    + intros good key bad rest -> Hgood Hbad. simpl.
      rewrite (infer_loop_app _ _ _ Hgood). simpl.
      rewrite (infer_column_rejects key bad Hbad). by eexists.
  - intros dt dims. unfold inferable. simpl. rewrite andb_true_iff.
    split; intros [Hdt Hsizes]; (split; [done|]).
    + destruct (mapM id (drop 1 dims)) as [sizes|] eqn:Hm; [|done].
      exists sizes. by apply mapM_id_inv.
    + destruct Hsizes as [sizes ->]. by rewrite mapM_id_Some.
  - intros name dt dims sizes Hsizes. simpl. by rewrite Hsizes, mapM_id_Some.
  - intros batch dt Hdt. simpl. by rewrite Hdt.
Qed.

(** * Further properties of the inference *)

(** X9: for a mapping, [infer_real_valued_columns] raises for the first
    value, in the mapping's order, that yields no column: the exception
    is the one [_infer_real_valued_column_for_tensor] raises for that key
    and value, and what comes after that value is not looked at.  For a
    sparse or non-numeric value it is [ValueError(text, key, value)],
    with the sparse-tensor text for a sparse tensor of any element type
    and the element-type text for a dense tensor of any shape, known or
    not; the single tensor gives the same with the empty name. *)
Theorem infer_real_valued_columns_first_offender good key value e :
  Forall (λ item, inferable item.2 = true) good →
  _infer_real_valued_column_for_tensor key value = Raise e →
  (∀ rest,
     infer_real_valued_columns (TensorDict (good ++ (key, value) :: rest))
     = Raise e) ∧
  (dense_numeric value = false →
     let text := match value with
                 | SparseTensor _ => sparse_not_supported
                 | DenseTensor _ _ => type_not_supported
                 end in
     e = ValueErrorArgs text key value ∧
     infer_real_valued_columns (OneTensor value)
     = Raise (ValueErrorArgs text "" value)).
Proof.
  intros Hgood Hraise. split.
  - intros rest. simpl. rewrite (infer_loop_app _ _ _ Hgood). simpl.
    by rewrite Hraise.
  - intros Hbad text. rewrite (infer_column_rejects key value Hbad) in Hraise.
    injection Hraise as <-. split; [done|]. simpl.
    by rewrite (infer_column_rejects "" value Hbad).
Qed.

(** X10: the inferred column does not depend on the size of the batch
    axis, known or not; a scalar or a rank-1 tensor gives dimension 1;
    and the dimension of a tensor whose axes after the batch axis split
    in two groups is the product of the two groups' sizes. *)
Theorem infer_real_valued_columns_batch_independent :
  (∀ dt batch batch' dims,
     returned (infer_real_valued_columns
                 (OneTensor (DenseTensor dt (Some (batch :: dims)))))
     = returned (infer_real_valued_columns
                   (OneTensor (DenseTensor dt (Some (batch' :: dims)))))) ∧
  (∀ dt batch batch' dims,
     is_integer dt || is_floating dt = true →
     infer_real_valued_columns (OneTensor (DenseTensor dt (Some (batch :: dims))))
     = infer_real_valued_columns
         (OneTensor (DenseTensor dt (Some (batch' :: dims))))) ∧
  (∀ dt dims,
     dense_numeric (DenseTensor dt (Some dims)) = true → length dims ≤ 1 →
     infer_real_valued_columns (OneTensor (DenseTensor dt (Some dims)))
     = Ok [real_valued_column "" 1 dt]) ∧
  (∀ dt batch sizes1 sizes2,
     dense_numeric (DenseTensor dt (shape_of batch (sizes1 ++ sizes2))) = true →
     infer_real_valued_columns
       (OneTensor (DenseTensor dt (shape_of batch (sizes1 ++ sizes2))))
     = Ok [real_valued_column "" (product_of sizes1 * product_of sizes2) dt]).
Proof.
  assert (∀ dt batch batch' dims,
     is_integer dt || is_floating dt = true →
     infer_real_valued_columns (OneTensor (DenseTensor dt (Some (batch :: dims))))
     = infer_real_valued_columns
         (OneTensor (DenseTensor dt (Some (batch' :: dims))))) as Hsame.
  { intros dt batch batch' dims Hdt. simpl. rewrite Hdt. simpl.
    by rewrite !dimension_loop_spec. }
  split_and!.
  - intros dt batch batch' dims.
    destruct (is_integer dt || is_floating dt) eqn:Hdt.
    + by rewrite (Hsame dt batch batch' dims Hdt).
    + simpl. by rewrite Hdt.
  - exact Hsame.
  - intros dt dims Hnum Hlen. simpl in Hnum. simpl. rewrite Hnum. simpl.
    rewrite dimension_loop_spec.
    by destruct dims as [|batch [|d dims]]; simpl in *; [..|lia].
  - intros dt batch sizes1 sizes2 Hnum. simpl in Hnum. simpl.
    rewrite Hnum. simpl.
    rewrite dimension_loop_spec. simpl. rewrite drop_0, mapM_id_Some. simpl.
    do 3 f_equal. unfold product_of. rewrite foldr_app.
    clear Hnum. induction sizes1 as [|d sizes1 IH]; simpl; [lia|].
    rewrite IH. lia.
Qed.

(** * The example columns *)

Module ExampleProperties.
Import Example.

Lemma columns_add_only : insert_adds_only.
Proof.
  intros c w Hc.
  destruct c; simpl;
    unfold insert_query_age, insert_age_bucket, insert_query_word, insert_age,
      and_then, ensure, insert_from, set_item; simpl;
    repeat (case_match; simplify_eq/=); try done;
    apply map_subseteq_spec; intros k v Hkv;
    repeat (rewrite lookup_insert_ne; [|intros <-; simplify_map_eq]); done.
Qed.

(** The world after [age] has been transformed. *)
Lemma transform_cached_returns_stored_witness :
  let w := set_item (KCol age) [[25]; [40]]%Z w0 in
  KCol age ∈ dom (columns_to_tensors w) ∧
  ∃ t, columns_to_tensors w !! KCol age = Some t ∧
       transform (KCol age) w = (w, [LogTransforming (KCol age)], Ok t) ∧
       ∀ c, insert_calls c (transform (KCol age) w).1.2 = 0.
Proof.
  intros w.
  assert (KCol age ∈ dom (columns_to_tensors w)) as Hin.
  { apply elem_of_dom. by eexists. }
  split; [exact Hin|]. exact (transform_cached_returns_stored _ _ Hin).
Defined.

(** C1 as stated fails: the raw feature "query_word" is a key of the
    mapping, the column [query_word] is not; [transform] then calls the
    column's [insert_transformed_feature], which adds an entry, and
    returns the hashed tensor, not the stored raw one. *)
Lemma transform_raw_name_only_counterexample :
  (KCol query_word ∈ dom (columns_to_tensors w0) ∨
   KName (name query_word) ∈ dom (columns_to_tensors w0)) ∧
  columns_to_tensors w0 !! KName (name query_word)
    = Some [[1007]; [2009]]%Z ∧
  transform (KCol query_word) w0
    = (set_item (KCol query_word) [[7]; [9]]%Z w0,
       [LogTransforming (KCol query_word);
        CallInsertTransformedFeature query_word],
       Ok [[7]; [9]]%Z) ∧
  ¬ (∃ t, (columns_to_tensors w0 !! KCol query_word = Some t ∨
           columns_to_tensors w0 !! KName (name query_word) = Some t) ∧
          (transform (KCol query_word) w0).2 = Ok t ∧
          columns_to_tensors (transform (KCol query_word) w0).1.1
            = columns_to_tensors w0 ∧
          insert_calls query_word (transform (KCol query_word) w0).1.2 = 0).
Proof.
  split_and!.
  - right. apply elem_of_dom. by eexists.
  - by vm_compute.
  - by vm_compute.
  - intros (t & _ & _ & _ & Hcalls). vm_compute in Hcalls. discriminate.
Qed.

Lemma transform_unsupported_iff_witness :
  ((transform (KCol image) w0).2 =
     Raise (ValueError ("Column " +:+ name image +:+ " is not supported."))
   ↔ columns_to_tensors w0 !! KCol image = None) ∧
  (∀ t, columns_to_tensors w0 !! KCol image = Some t →
     transform (KCol image) w0 =
       (w0, [LogTransforming (KCol image); CallInsertTransformedFeature image],
        Ok t)).
Proof.
  apply (proj1 (transform_unsupported_iff image w0 eq_refl) w0). reflexivity.
Defined.

Lemma present_key_never_overwritten_witness :
  let ks := [KCol query_age; KCol age; KCol image; KCol age_bucket] in
  columns_to_tensors w0 ⊆ columns_to_tensors (transform_calls ks w0).1.1 ∧
  columns_to_tensors (transform_calls ks w0).1.1 !! KName "age"
    = Some [[25]; [40]]%Z.
Proof.
  intros ks.
  apply (proj2 present_key_never_overwritten columns_add_only
           ks w0 (KName "age") [[25]; [40]]%Z).
  reflexivity.
Defined.



Lemma check_feature_columns_spec_witness :
  check_feature_columns [query_age; age; age_bucket] w0 = (w0, [], Ok ()) ∧
  ∃ l1 f l2, [age_bucket; age; query_word; age; age_bucket] = l1 ++ f :: l2 ∧
    NoDup (key <$> l1) ∧ key f ∈ key <$> l1 ∧
    ∀ l2', check_feature_columns (l1 ++ f :: l2') w0 =
      (w0, [],
       Raise (ValueError ("Duplicate feature column key found: " +:+ key f))).
Proof.
  split.
  - apply (check_feature_columns_spec [query_age; age; age_bucket] w0).
    apply (bool_decide_unpack _). by vm_compute.
  - apply (check_feature_columns_spec
             [age_bucket; age; query_word; age; age_bucket] w0).
    exists 1, 3, age, age. by split_and!; [lia|..].
Defined.

Lemma input_from_feature_columns_key_order_witness :
  sorted_by_key [age_bucket; age] = [age; age_bucket] ∧
  input_from_feature_columns [age_bucket; age] None None true w0
    = input_from_feature_columns [age; age_bucket] None None true w0 ∧
  (input_from_feature_columns [age_bucket; age] None None true w0).2
    = Ok [[25; 0; 0; 1; 0; 0; 0]; [40; 0; 0; 0; 1; 0; 0]]%Z ∧
  width_is (1 + 6) [[25; 0; 0; 1; 0; 0; 0]; [40; 0; 0; 0; 1; 0; 0]]%Z.
Proof.
  assert (NoDup (key <$> [age_bucket; age])) as Hnd.
  { apply (bool_decide_unpack _). by vm_compute. }
  destruct (input_from_feature_columns_key_order
              [age_bucket; age] None None true w0 Hnd)
    as ((_ & _) & Horder & Hrun & _).
  split_and!.
  - by vm_compute.
  - symmetry. apply Horder. apply Permutation_swap.
  - by vm_compute.
  - destruct (input_from_feature_columns [age_bucket; age] None None true w0)
      as [[w' tr] r] eqn:Hr.
    assert (r = Ok [[25; 0; 0; 1; 0; 0; 0]; [40; 0; 0; 0; 1; 0; 0]]%Z) as ->.
    { by vm_compute in Hr; injection Hr as _ _ <-. }
    destruct (Hrun _ _ _ eq_refl) as (_ & slices & Hsteps & Hcat & _ & _ & Hw).
    apply (Hw [1; 6]).
    inversion Hsteps as [|? ? ? ? ? ? ? s1 ? ? H1 H2 Hrest]; subst.
    inversion Hrest as [|? ? ? ? ? ? ? s2 ? ? H3 H4 Hnil]; subst.
    inversion Hnil; subst.
    vm_compute in H1. injection H1 as <- _ <-.
    vm_compute in H2. injection H2 as <- <-.
    vm_compute in H3. injection H3 as <- _ <-.
    vm_compute in H4. injection H4 as _ <-.
    repeat constructor.
Defined.

Lemma weighted_sum_from_feature_columns_spec_witness :
  ∃ w' tr predictions column_to_variable bias,
    weighted_sum_from_feature_columns [age_bucket; age] 2 None None true w0
      = (w', tr, Ok (predictions, column_to_variable, bias)) ∧
    predictions = [[27; 27]; [43; 43]]%Z ∧
    weighted_sum_calls tr = [age; age_bucket] ∧
    length (var_value bias) = 2 ∧
    width_is 2 predictions ∧
    (∀ c, c ∈ [age_bucket; age] ↔ is_Some (column_to_variable !! c)).
Proof.
  assert (NoDup (key <$> [age_bucket; age])) as Hnd.
  { apply (bool_decide_unpack _). by vm_compute. }
  destruct (weighted_sum_from_feature_columns_spec
              [age_bucket; age] 2 None None true w0 Hnd) as [Hrun _].
  destruct (weighted_sum_from_feature_columns [age_bucket; age] 2 None None
              true w0) as [[w' tr] r] eqn:Hr.
  pose proof Hr as Hr'. vm_compute in Hr'. injection Hr' as _ _ Hres.
  destruct r as [[[predictions c2v] bias]|e]; [|discriminate].
  assert (predictions = [[27; 27]; [43; 43]]%Z) as Hp by congruence.
  destruct (Hrun _ _ _ _ _ eq_refl)
    as (Hcalls & w1 & contributions & _ & _ & Hlen & _ & Hwidth & Hdom & _).
  exists w', tr, predictions, c2v, bias. split_and!; try done.
Defined.

Lemma builders_reject_repeated_column_witness :
  (∃ f, f ∈ [age; query_word; age] ∧
     input_from_feature_columns [age; query_word; age] None None true w0
       = (w0, [], Raise (ValueError
                    ("Duplicate feature column key found: " +:+ key f))) ∧
     weighted_sum_from_feature_columns [age; query_word; age] 1 None None
       true w0
       = (w0, [], Raise (ValueError
                    ("Duplicate feature column key found: " +:+ key f)))) ∧
  NoDup (sorted_by_key (set_of [age; query_word; age])) ∧
  age ∈ sorted_by_key (set_of [age; query_word; age]).
Proof.
  apply (builders_reject_repeated_column
           [age; query_word; age] age 0 2 1 None None true w0);
    [lia|reflexivity..].
Defined.

(** C7, at the failing input: a call with [trainable=False].  The weight
    of [age] stays out of [GraphKeys.TRAINABLE_VARIABLES]; the bias
    variable is the one variable in it. *)
Lemma bias_variable_always_trainable_witness :
  ∃ w' tr predictions column_to_variable bias,
    weighted_sum_from_feature_columns [age] 1 None None false w0
      = (w', tr, Ok (predictions, column_to_variable, bias)) ∧
    in_collection GraphKeys.TRAINABLE_VARIABLES bias w' ∧
    collections w' !! GraphKeys.TRAINABLE_VARIABLES = Some [bias] ∧
    column_to_variable !! age = Some (OneVar (mkVar "age_weights" "" [1%Z])) ∧
    bias = mkVar "bias_weight" "" [0%Z].
Proof.
  destruct (weighted_sum_from_feature_columns [age] 1 None None false w0)
    as [[w' tr] r] eqn:Hr.
  pose proof Hr as Hr'. vm_compute in Hr'. injection Hr' as Hw _ Hres.
  destruct r as [[[predictions c2v] bias]|e]; [|discriminate].
  exists w', tr, predictions, c2v, bias. split_and!.
  - reflexivity.
  - exact (bias_variable_always_trainable _ _ _ _ _ _ _ _ _ _ _ Hr).
  - injection Hres as _ _ <-. by rewrite <-Hw.
  - injection Hres as _ <- _. reflexivity.
  - by injection Hres as _ _ <-.
Defined.

(** ** Witnesses of the further properties *)

Lemma transform_again_is_cached_witness :
  let run := transform (KCol age_bucket) w0 in
  columns_to_tensors run.1.1 !! KCol age_bucket = Some [[2]; [3]]%Z ∧
  transform (KCol age_bucket) run.1.1
  = (run.1.1, [LogTransforming (KCol age_bucket)], Ok [[2]; [3]]%Z).
Proof.
  intros run.
  apply (transform_again_is_cached (KCol age_bucket) w0 run.1.1 run.1.2).
  by vm_compute.
Defined.

Lemma check_feature_columns_subcollection_witness :
  check_feature_columns [query_word; age] w_empty = (w_empty, [], Ok ()).
Proof.
  apply (check_feature_columns_subcollection
           [age; age_bucket; query_word] [query_word; age] w0 w_empty).
  - by vm_compute.
  - apply (bool_decide_unpack _). by vm_compute.
Defined.

(** [age] can be rendered for a network, the hashed [query_word]
    cannot: the input-layer builder stops there, [query_word] being the
    last column called.  With the same column twice, nothing happens. *)
Lemma builders_call_prefix_of_sorted_columns_witness :
  (∃ w' tr,
     input_from_feature_columns [query_word; age] None None true w0
       = (w', tr, Raise not_for_dnn) ∧
     dnn_calls tr = [age] ++ [query_word] ∧
     transform_log tr = KCol <$> [age] ++ [query_word]) ∧
  (∃ e,
     input_from_feature_columns [age; query_word; age] None None true w0
       = (w0, [], Raise e) ∧
     weighted_sum_from_feature_columns [age; query_word; age] 1 None None
       true w0 = (w0, [], Raise e)).
Proof.
  destruct (builders_call_prefix_of_sorted_columns
              [query_word; age] 1 None None true w0)
    as (_ & _ & _ & _ & _ & _ & _ & _ & Hstops & _).
  destruct (builders_call_prefix_of_sorted_columns
              [age; query_word; age] 1 None None true w0)
    as (_ & _ & _ & _ & _ & Hinvalid & _).
  split.
  - assert (NoDup (key <$> [query_word; age])) as Hnd.
    { apply (bool_decide_unpack _). by vm_compute. }
    destruct (Hstops Hnd [age] query_word []
                (transform (KCol age) w0).1.1 [[[25]; [40]]%Z]) as [_ Hrender].
    + by vm_compute.
    + eapply (input_steps_cons _ _ age [] w0 (transform (KCol age) w0).1.1
                (transform (KCol age) w0).1.2 [[25]; [40]]%Z);
        [by vm_compute|reflexivity|constructor].
    + destruct (Hrender
                  (transform (KCol query_word) (transform (KCol age) w0).1.1).1.1
                  (transform (KCol query_word) (transform (KCol age) w0).1.1).1.2
                  [[7]; [9]]%Z
                  (transform (KCol query_word) (transform (KCol age) w0).1.1).1.1
                  not_for_dnn) as (tr & Hrun & Hcalls & Hlog).
      * by vm_compute.
      * reflexivity.
      * by eexists _, tr.
  - apply Hinvalid. intros Hnd.
    by apply (bool_decide_pack _) in Hnd.
Defined.

Lemma weighted_sum_logs_every_variable_witness :
  ∃ w' tr predictions column_to_variable bias (ws : list Weights),
    weighted_sum_from_feature_columns [age_bucket; age] 2 None None true w0
      = (w', tr, Ok (predictions, column_to_variable, bias)) ∧
    Forall2 (λ c wt, column_to_variable !! c = Some wt)
            (sorted_by_key (set_of [age_bucket; age])) ws ∧
    logged_variables tr = (ws ≫= variables_of) ++ [bias] ∧
    var_name <$> logged_variables tr
      = ["age_weights"; "age_BUCKETIZED_weights"; "bias_weight"].
Proof.
  destruct (weighted_sum_from_feature_columns [age_bucket; age] 2 None None
              true w0) as [[w' tr] r] eqn:Hr.
  pose proof Hr as Hr'. vm_compute in Hr'. injection Hr' as _ Htr Hres.
  destruct r as [[[predictions c2v] bias]|e]; [|discriminate].
  destruct (weighted_sum_logs_every_variable _ _ _ _ _ _ _ _ _ _ _ Hr)
    as (ws & Hws & Hlogs).
  exists w', tr, predictions, c2v, bias, ws. split_and!; [done..|].
  by rewrite <-Htr.
Defined.

Lemma parse_rejects_duplicate_keys_witness :
  (∃ h, h ∈ [age; query_word; age] ∧
     parse_feature_columns_from_examples records
       (Collection [age; query_word; age]) None None w_empty
     = (w_empty, [], Raise (ValueError
                        ("Duplicate feature column key found: " +:+ key h)))) ∧
  (∃ h, h ∈ [age; query_word; age] ∧
     parse_feature_columns_from_examples records
       (Iterator [age; query_word; age]) None None w_empty
     = (w_empty, [], Raise (ValueError
                        ("Duplicate feature column key found: " +:+ key h)))).
Proof.
  split.
  - apply (parse_rejects_duplicate_keys records
             (Collection [age; query_word; age]) None None 0 2 age age w_empty);
      [lia|reflexivity..].
  - apply (parse_rejects_duplicate_keys records
             (Iterator [age; query_word; age]) None None 0 2 age age w_empty);
      [lia|reflexivity..].
Defined.

(** The same two columns, as a list and as a generator: the list comes
    back transformed, the generator gives a dictionary without any
    entry, the schema of no column asking for no feature. *)
Lemma parse_returns_transformed_dictionary_witness :
  (∃ w' tr d,
     parse_feature_columns_from_examples records (Collection [query_age; age])
       None None w_empty = (w', tr, Ok d) ∧
     d = columns_to_tensors w' ∧
     transform_log tr = [KCol age; KCol query_age] ∧
     d !! KName "age" = Some [[25]; [40]]%Z ∧
     is_Some (d !! KCol query_age) ∧ is_Some (d !! KCol age)) ∧
  (∃ w' d,
     parse_feature_columns_from_examples records (Iterator [query_age; age])
       None None w_empty = (w', [], Ok d) ∧
     d = ∅).
Proof.
  split.
  - destruct (parse_feature_columns_from_examples records
                (Collection [query_age; age]) None None w_empty)
      as [[w' tr] r] eqn:Hr.
    pose proof Hr as Hr'. vm_compute in Hr'. injection Hr' as _ _ Hres.
    destruct r as [d|e]; [|discriminate].
    destruct (parse_returns_transformed_dictionary _ _ _ _ _ _ _ _ Hr)
      as (_ & Hd & features & w1 & parsed & Hspec & Hparse & Hlog & Hgrow).
    destruct (Hgrow columns_add_only) as [Hsub Hall].
    exists w', tr, d. split_and!; [done|done|by rewrite Hlog| | |].
    + eapply lookup_weaken; [|exact Hsub].
      revert Hspec Hparse. simpl. intros [= <-] [= _ <-]. reflexivity.
    + apply Hall. by left.
    + apply Hall. right. by left.
  - destruct (parse_feature_columns_from_examples records
                (Iterator [query_age; age]) None None w_empty)
      as [[w' tr] r] eqn:Hr.
    pose proof Hr as Hr'. vm_compute in Hr'. injection Hr' as _ _ Hres.
    destruct r as [d|e]; [|discriminate].
    destruct (parse_returns_transformed_dictionary _ _ _ _ _ _ _ _ Hr)
      as (_ & Hd & features & w1 & Hspec & Hparse & Hw & ->).
    exists w', d. split; [done|].
    revert Hspec Hparse. simpl. by intros [= <-] [= _ <-].
Defined.

Lemma parse_transforms_prefix_of_sorted_columns_witness :
  parse_feature_columns_from_examples (delete "age" records)
    (Collection [query_age; age]) None None w_empty
  = (w_empty, [], Raise (KeyError "age")).
Proof.
  apply (proj2 (parse_transforms_prefix_of_sorted_columns
                  (delete "age" records) (Collection [query_age; age])
                  None None w_empty)
               ["query_word"; "age"; "age"]).
  - apply (bool_decide_unpack _). by vm_compute.
  - reflexivity.
  - by vm_compute.
Defined.

End ExampleProperties.

Lemma infer_real_valued_columns_first_offender_witness :
  (∀ rest,
     infer_real_valued_columns
       (TensorDict ([("a", DenseTensor DT_INT32 (shape_of None [2]))]
                    ++ ("s", SparseTensor DT_STRING) :: rest))
     = Raise (ValueErrorArgs sparse_not_supported "s" (SparseTensor DT_STRING))) ∧
  infer_real_valued_columns (OneTensor (SparseTensor DT_STRING))
  = Raise (ValueErrorArgs sparse_not_supported "" (SparseTensor DT_STRING)).
Proof.
  destruct (infer_real_valued_columns_first_offender
              [("a", DenseTensor DT_INT32 (shape_of None [2]))]
              "s" (SparseTensor DT_STRING)
              (ValueErrorArgs sparse_not_supported "s" (SparseTensor DT_STRING)))
    as [Hrest Hbad].
  - by repeat constructor.
  - reflexivity.
  - split; [exact Hrest|]. by apply Hbad.
Defined.

Lemma infer_real_valued_columns_batch_independent_witness :
  infer_real_valued_columns (OneTensor (DenseTensor DT_FLOAT (Some [None])))
    = Ok [real_valued_column "" 1 DT_FLOAT] ∧
  infer_real_valued_columns
    (OneTensor (DenseTensor DT_INT64 (shape_of (Some 5) ([2; 3] ++ [4]))))
    = Ok [real_valued_column "" (product_of [2; 3] * product_of [4]) DT_INT64] ∧
  infer_real_valued_columns
    (OneTensor (DenseTensor DT_INT64 (Some [None; Some 2; None])))
    = infer_real_valued_columns
        (OneTensor (DenseTensor DT_INT64 (Some [Some 7; Some 2; None]))).
Proof.
  destruct infer_real_valued_columns_batch_independent
    as (_ & Hsame & Hlow & Hsplit).
  split_and!.
  - apply Hlow; [reflexivity|simpl; lia].
  - apply (Hsplit DT_INT64 (Some 5) [2; 3] [4]). reflexivity.
  - by apply Hsame.
Defined.

Lemma infer_real_valued_columns_spec_witness :
  infer_real_valued_columns
    (OneTensor (DenseTensor DT_FLOAT (Some [None; Some 3; Some 4])))
    = Ok [real_valued_column "" 12 DT_FLOAT] ∧
  (∃ text, infer_real_valued_columns (OneTensor (SparseTensor DT_INT64))
           = Raise (ValueErrorArgs text "" (SparseTensor DT_INT64))) ∧
  (∃ text, infer_real_valued_columns
             (TensorDict [("a", DenseTensor DT_INT32 (shape_of (Some 8) [2]));
                          ("s", DenseTensor DT_STRING (shape_of (Some 8) []))])
           = Raise (ValueErrorArgs text "s"
                      (DenseTensor DT_STRING (shape_of (Some 8) [])))) ∧
  infer_real_valued_columns
    (TensorDict [("a", DenseTensor DT_INT32 (shape_of (Some 8) [2; 5]));
                 ("b", DenseTensor DT_DOUBLE (shape_of None []))])
    = Ok [real_valued_column "a" 10 DT_INT32; real_valued_column "b" 1 DT_DOUBLE].
Proof.
  destruct infer_real_valued_columns_spec as (Hone & Hdict & _ & _ & Hexample).
  split_and!.
  - by apply Hexample.
  - by apply (proj1 (Hone _)).
  - apply (proj2 (proj2 (Hdict _))
             [("a", DenseTensor DT_INT32 (shape_of (Some 8) [2]))]
             "s" (DenseTensor DT_STRING (shape_of (Some 8) [])) []);
      [reflexivity|by repeat constructor|reflexivity].
  - apply (proj1 (Hdict [("a", DenseTensor DT_INT32 (shape_of (Some 8) [2; 5]));
                          ("b", DenseTensor DT_DOUBLE (shape_of None []))])).
    by repeat constructor.
Defined.

(** C8 as stated fails: a dense tensor of floating element type whose
    second axis has no known size is neither sparse nor non-numeric, yet
    no column comes out: the multiplication of the loop raises a
    [TypeError].  With an unknown rank, [as_list] raises. *)
Lemma dense_numeric_unknown_size_counterexample :
  dense_numeric (DenseTensor DT_FLOAT (Some [None; None])) = true ∧
  infer_real_valued_columns (OneTensor (DenseTensor DT_FLOAT (Some [None; None])))
    = Raise (TypeError
               "unsupported operand type(s) for *=: 'int' and 'NoneType'") ∧
  ¬ (∃ column,
       infer_real_valued_columns
         (OneTensor (DenseTensor DT_FLOAT (Some [None; None])))
       = Ok [column]) ∧
  dense_numeric (DenseTensor DT_INT32 None) = true ∧
  infer_real_valued_columns (OneTensor (DenseTensor DT_INT32 None))
    = Raise (ValueError "as_list() is not defined on an unknown TensorShape.") ∧
  infer_real_valued_columns
    (TensorDict [("a", DenseTensor DT_FLOAT (Some [None; Some 3; None]));
                 ("s", SparseTensor DT_STRING)])
    = Raise (TypeError
               "unsupported operand type(s) for *=: 'int' and 'NoneType'").
Proof. split_and!; try reflexivity. by intros [column [=]]. Qed.
